(** * popGenMachineLearningExamples: the ancestral population size notebook

    A shallow embedding of the code cells of
    [ancPopSizeRegressionExample.ipynb]: the parameter sampler that writes
    [random_pop_size.sizes], and the cell that turns the simulator output
    into the feature matrix [X] and the label vector [Y].

    Conventions.
    - Python [str] values and file contents are lists of characters.
    - A Python [float] is modelled by the rational number it denotes
      (every finite double is a rational); [nan] and the infinities are
      outside the model.  A decimal literal is read in two steps: the
      rational that its digits denote ([parse_float]), and the double
      nearest to it ([as_double]), which is what [float] returns.  The
      statistics of scikit-allel return values of an abstract type.
    - A raised exception is the [Error] constructor of [result]. *)

From Stdlib Require Import Ascii String List ZArith NArith PArith QArith Qround Qabs Qpower Lia Lqa Bool.
Import ListNotations.

Local Open Scope list_scope.

(** ** Exceptions *)

Inductive exn : Type :=
| IOError          (* a file that is opened for reading does not exist *)
| ValueError       (* a literal that does not parse *)
| IndexError       (* list index out of range *)
| NameError        (* a name that is not bound *)
| FormatError.     (* the simulator output does not follow its grammar *)

Inductive result (A : Type) : Type :=
| Ok (a : A)
| Error (e : exn).

Arguments Ok {A} a.
Arguments Error {A} e.

Definition is_error {A} (r : result A) : Prop :=
  match r with Ok _ => False | Error _ => True end.

Definition rbind {A B} (r : result A) (k : A -> result B) : result B :=
  match r with
  | Ok a => k a
  | Error e => Error e
  end.

Declare Scope result_scope.
Delimit Scope result_scope with result.
Notation "x <- r ;; k" := (rbind r (fun x => k))
  (at level 61, r at next level, right associativity) : result_scope.
Notation "' p <- r ;; k" := (rbind r (fun x => match x with p => k end))
  (at level 61, p pattern, r at next level, right associativity) : result_scope.

Fixpoint rmap {A B} (f : A -> result B) (l : list A) : result (list B) :=
  match l with
  | [] => Ok []
  | a :: l' =>
      match f a with
      | Error e => Error e
      | Ok b =>
          match rmap f l' with
          | Error e => Error e
          | Ok bs => Ok (b :: bs)
          end
      end
  end.

Definition of_option {A} (e : exn) (o : option A) : result A :=
  match o with Some a => Ok a | None => Error e end.

(** Python's [l[i]] on a list, for a non-negative index. *)
Definition index {A} (l : list A) (i : nat) : result A :=
  of_option IndexError (nth_error l i).

(** ** Text *)

Definition text := list ascii.

Definition newline : ascii := "010"%char.
Definition space : ascii := " "%char.
Definition dot : ascii := "."%char.
Definition minus : ascii := "-"%char.
Definition plus : ascii := "+"%char.

Definition txt (s : string) : text := list_ascii_of_string s.

(** The lines of a text, as iterating over an open file yields them (the
    terminating newline removed); a last line without newline counts when
    it is not empty.  [cur] holds the characters of the current line in
    reverse. *)
Fixpoint splitlines_from (cur : text) (s : text) : list text :=
  match s with
  | [] => match cur with [] => [] | _ => [rev cur] end
  | c :: s' =>
      if Ascii.eqb c newline then rev cur :: splitlines_from [] s'
      else splitlines_from (c :: cur) s'
  end.

Definition splitlines (s : text) : list text := splitlines_from [] s.

Definition no_newline (l : text) : Prop := Forall (fun c => c <> newline) l.

(** The text of a file written line by line, each line with its newline. *)
Definition file_of_lines (ls : list text) : text :=
  concat (map (fun l => l ++ [newline]) ls).

(** The maximal runs of elements that are not separators; [cur] holds the
    current run in reverse. *)
Fixpoint runs_from {A} (sep : A -> bool) (cur : list A) (l : list A)
  : list (list A) :=
  match l with
  | [] => match cur with [] => [] | _ => [rev cur] end
  | a :: l' =>
      if sep a
      then match cur with
           | [] => runs_from sep [] l'
           | _ => rev cur :: runs_from sep [] l'
           end
      else runs_from sep (a :: cur) l'
  end.

(** [str.split()] on blanks. *)
Definition words (s : text) : list text :=
  runs_from (fun c => Ascii.eqb c space) [] s.

(** ** Decimal digits *)

Definition digit_char (d : N) : ascii := ascii_of_N (48 + d).

Definition digit_value (c : ascii) : option N :=
  let n := N_of_ascii c in
  if ((48 <=? n) && (n <=? 57))%N then Some (n - 48)%N else None.

Definition is_digit (c : ascii) : Prop := digit_value c <> None.

(** The value of a run of digits read from the left, starting from [acc]. *)
Fixpoint digits_value_from (acc : N) (s : text) : option N :=
  match s with
  | [] => Some acc
  | c :: s' =>
      match digit_value c with
      | Some d => digits_value_from (10 * acc + d) s'
      | None => None
      end
  end.

(** A non-empty run of digits. *)
Definition digits_value (s : text) : option N :=
  match s with
  | [] => None
  | _ => digits_value_from 0 s
  end.

(** The decimal digits of [n], most significant first, without leading
    zeros ("0" for zero).  [fuel] bounds the number of digits. *)
Fixpoint int_digits_aux (fuel : nat) (n : N) : text :=
  match fuel with
  | O => []
  | S f =>
      if (n <? 10)%N then [digit_char n]
      else int_digits_aux f (n / 10) ++ [digit_char (n mod 10)]
  end.

Definition int_digits (n : N) : text :=
  int_digits_aux (S (N.to_nat (N.log2 n))) n.

(** Exactly [k] digits: [n mod 10^k], padded with zeros on the left. *)
Fixpoint fixed_digits (k : nat) (n : N) : text :=
  match k with
  | O => []
  | S k' => fixed_digits k' (n / 10) ++ [digit_char (n mod 10)]
  end.

Definition pow10_pos (k : nat) : positive := Nat.iter k (Pos.mul 10) 1%positive.

(** ** The conversion ["%f" % x] and the reading of a decimal literal *)

(** The integer nearest to [num / den], a tie going to the even neighbour:
    the rounding of Python's float formatting. *)
Definition round_half_even (num : N) (den : positive) : N :=
  let q := (num / Npos den)%N in
  let r := (num mod Npos den)%N in
  match (2 * r ?= Npos den)%N with
  | Lt => q
  | Gt => (q + 1)%N
  | Eq => if N.even q then q else (q + 1)%N
  end.

(** [|x|] in millionths, rounded. *)
Definition round6_micro (x : Q) : N :=
  round_half_even (Z.abs_N (Qnum x) * 1000000) (Qden x).

(** [x] rounded to six decimal places. *)
Definition round6 (x : Q) : Q :=
  let m := Z.of_N (round6_micro x) in
  (if (Qnum x <? 0)%Z then (- m)%Z else m) # 1000000.

(** ["%f" % x]: sign, integer part, a point and six digits. *)
Definition format_f (x : Q) : text :=
  let m := round6_micro x in
  (if (Qnum x <? 0)%Z then [minus] else [])
    ++ int_digits (m / 1000000) ++ dot :: fixed_digits 6 (m mod 1000000).

(** The text before the first point, and the text after it if there is
    one. *)
Fixpoint split_at_dot (s : text) : text * option text :=
  match s with
  | [] => ([], None)
  | c :: s' =>
      if Ascii.eqb c dot then ([], Some s')
      else let (ip, fp) := split_at_dot s' in (c :: ip, fp)
  end.

Definition parse_unsigned (s : text) : option Q :=
  let (ip, fp) := split_at_dot s in
  match digits_value ip with
  | None => None
  | Some i =>
      match fp with
      | None => Some (Z.of_N i # 1)
      | Some f =>
          match digits_value_from 0 f with
          | None => None
          | Some v =>
              Some (Z.of_N (i * Npos (pow10_pos (length f)) + v)
                      # pow10_pos (length f))
          end
      end
  end.

(** The number that a plain decimal literal denotes: an optional sign,
    digits, and optionally a point followed by digits.  This is the exact
    decimal value of the text; [float(s)] is the double nearest to it, see
    [float_of_text].  (Python's [float] accepts more literals: exponents,
    a point without digits before it, surrounding blanks, [inf], [nan].) *)
Definition parse_float (s : text) : option Q :=
  match s with
  | c :: s' =>
      if Ascii.eqb c minus then option_map Qopp (parse_unsigned s')
      else if Ascii.eqb c plus then parse_unsigned s'
      else parse_unsigned s
  | [] => None
  end.

(** ** Reading a decimal as a double *)

(** [2^k <= n/d] *)
Definition pow2_le (k : Z) (n d : positive) : bool :=
  if (0 <=? k)%Z then (Zpos d * 2 ^ k <=? Zpos n)%Z
  else (Zpos d <=? Zpos n * 2 ^ (- k))%Z.

(** The integer part of the binary logarithm of [n/d]. *)
Definition floor_log2 (n d : positive) : Z :=
  let k := (Z.log2 (Zpos n) - Z.log2 (Zpos d))%Z in
  if pow2_le k n d then k else (k - 1)%Z.

(** The exponent of the last place of the binary64 numbers around [n/d]:
    a significand of 53 bits, or fewer below [2^-1022], where the exponent
    stays at -1074. *)
Definition double_exponent (n d : positive) : Z :=
  Z.max (floor_log2 n d - 52) (-1074).

(** The binary64 number nearest to [n/d], a tie going to the even
    significand.  (From [2^1024] on [float] returns [inf], which is
    outside the model.) *)
Definition nearest_double_pos (n d : positive) : Q :=
  let e := double_exponent n d in
  if (0 <=? e)%Z
  then (Z.of_N (round_half_even (Npos n) (d * Z.to_pos (2 ^ e))) * 2 ^ e)%Z # 1
  else Z.of_N (round_half_even (Npos n * Npos (Z.to_pos (2 ^ (- e)))) d)
         # Z.to_pos (2 ^ (- e)).

(** The double that a rational is rounded to, in lowest terms. *)
Definition as_double (v : Q) : Q :=
  match Qnum v with
  | Z0 => 0
  | Zpos n => Qred (nearest_double_pos n (Qden v))
  | Zneg n => Qred (- nearest_double_pos n (Qden v))
  end.

(** [float(s)] on the plain decimal literals. *)
Definition float_of_text (s : text) : option Q :=
  option_map as_double (parse_float s).

(** ** Files *)

Definition filesystem := string -> option text.

(** [open(name, "w")], the writes, and the close: the file holds exactly
    what was written. *)
Definition fs_write (name : string) (content : text) (fs : filesystem)
  : filesystem :=
  fun n => if String.eqb n name then Some content else fs n.

Definition fs_read (fs : filesystem) (name : string) : result text :=
  of_option IOError (fs name).

Definition sizes_file : string := "random_pop_size.sizes".
Definition msOut_file : string := "random_pop_size.msOut".

(** ** Step 1, first cell: the parameter sampler *)

(** The [random] module and the float power operator.  [random] returns a
    draw and the next state of the generator; [float_pow b e] is [b ** e]
    on floats. *)
Class PyFloat := {
  rng : Type;
  random : rng -> Q * rng;
  float_pow : Q -> Q -> Q
}.

Section Sampler.
Context `{PyFloat}.

(** One round of the loop body:
    [popSize = 10**(random.random()*2-1); f.write("%f\n" %(popSize))].
    On a draw [u] in [[0,1)], a multiple of [2^-53], the product and the
    difference are exact in double precision. *)
Definition popSize_of (u : Q) : Q := float_pow 10 (u * 2 - 1).

Definition sampler_step (st : rng * text) : rng * text :=
  let (g, f) := st in
  let (u, g') := random g in
  let popSize := popSize_of u in
  (g', f ++ format_f popSize ++ [newline]).

(** [for i in range(n)] over the generator and the open file. *)
Fixpoint sampler_loop (n : nat) (st : rng * text) : rng * text :=
  match n with
  | O => st
  | S n' => sampler_loop n' (sampler_step st)
  end.

(** The whole cell, for [n] rounds. *)
Definition param_sampler (n : nat) (fs : filesystem) (g : rng)
  : filesystem * rng :=
  let (g', f) := sampler_loop n (g, []) in
  (fs_write sizes_file f fs, g').

(** The values of [popSize] in the order of their generation. *)
Fixpoint popSizes (n : nat) (g : rng) : list Q :=
  match n with
  | O => []
  | S n' => let (u, g') := random g in popSize_of u :: popSizes n' g'
  end.
End Sampler.

(** The count of the notebook. *)
Definition reference_count : nat := 100 * 100.

(** ** Step 1, second cell: the simulator

    [ms] is an external program; whatever it prints is stored in
    [random_pop_size.msOut]. *)
Definition ms_cell (stdout : text) (fs : filesystem) : filesystem :=
  fs_write msOut_file stdout fs.

(** ** [numpy.loadtxt] on a file of one value per line

    Empty lines are skipped, every other line is read as one value (numpy
    also strips blanks and comments, which the files of the notebook do
    not have).  [loadtxt] keeps the decimal values of the lines in file
    order; the floats of the array are the doubles nearest to them, see
    [loadtxt_floats] (numpy returns them as a one-dimensional array, and
    as a zero-dimensional one when there is a single value). *)
Definition nonblank (l : text) : bool :=
  match l with [] => false | _ => true end.

Definition loadtxt (fs : filesystem) (name : string) : result (list Q) :=
  rbind (fs_read fs name) (fun s =>
    rmap (fun l => of_option ValueError (parse_float l))
         (filter nonblank (splitlines s))).

(** The floats of the array that [np.loadtxt] returns. *)
Definition loadtxt_floats (fs : filesystem) (name : string)
  : result (list Q) :=
  rbind (fs_read fs name) (fun s =>
    rmap (fun l => of_option ValueError (float_of_text l))
         (filter nonblank (splitlines s))).

(** ** Step 1, third cell: from simulator output to [X] and [Y] *)

(** One replicate as the parser hands it over: a matrix of 0/1 entries and
    the integer positions of its sites. *)
Definition hapArrayIn := list (list Z).
Definition positionArray := list Z.

(** [msTools.py] is imported by the cell; its parser is a parameter of the
    cell here. *)
Class MsTools := {
  msOutToHaplotypeArrayIn :
    filesystem -> string -> Z -> result (list hapArrayIn * list positionArray)
}.

(** The part of scikit-allel that the cell calls.  Each call returns a
    value or raises. *)
Class Allel := {
  stat : Type;
  haplotypes : Type;
  genotypes : Type;
  allele_counts : Type;
  HaplotypeArray : hapArrayIn -> result haplotypes;
  to_genotypes : haplotypes -> Z -> result genotypes;
  count_alleles : genotypes -> result allele_counts;
  tajima_d : allele_counts -> positionArray -> result stat;
  sequence_diversity : positionArray -> allele_counts -> result stat;
  watterson_theta : positionArray -> allele_counts -> result stat;
  garud_h : haplotypes -> result (stat * stat * stat * stat)
}.

Section Assembler.
Context `{MsTools} `{Allel}.

(** The names the cell leaves bound for the cells after it. *)
Record namespace := {
  ns_X : option (list (list stat));
  ns_Y : option (list Q)
}.

(** A statement runs on the namespace and returns or raises; a raised
    exception ends the cell and leaves the bindings made so far. *)
Definition M (A : Type) := namespace -> namespace * result A.

Definition mret {A} (a : A) : M A := fun ns => (ns, Ok a).

Definition mbind {A B} (m : M A) (k : A -> M B) : M B :=
  fun ns =>
    match m ns with
    | (ns', Ok a) => k a ns'
    | (ns', Error e) => (ns', Error e)
    end.

Definition lift {A} (r : result A) : M A := fun ns => (ns, r).

Local Notation "x <~ m ;; k" := (mbind m (fun x => k))
  (at level 61, m at next level, right associativity).
Local Notation "m ;;> k" := (mbind m (fun _ => k))
  (at level 61, right associativity).

Definition set_X (X : list (list stat)) : M unit :=
  fun ns => ({| ns_X := Some X; ns_Y := ns_Y ns |}, Ok tt).

Definition set_Y (Y : list Q) : M unit :=
  fun ns => ({| ns_X := ns_X ns; ns_Y := Some Y |}, Ok tt).

Definition get_X : M (list (list stat)) :=
  fun ns => (ns, of_option NameError (ns_X ns)).

(** [X.append(row)] *)
Definition append_X (row : list stat) : M unit :=
  X <~ get_X ;; set_X (X ++ [row]).

Fixpoint for_each {A} (l : list A) (body : A -> M unit) : M unit :=
  match l with
  | [] => mret tt
  | a :: l' => body a ;;> for_each l' body
  end.

(** [for i in range(n)] *)
Definition for_range (n : nat) (body : nat -> M unit) : M unit :=
  for_each (seq 0 n) body.

Definition first4 (g : stat * stat * stat * stat) : stat :=
  let '(h1, _, _, _) := g in h1.

(** The feature vector of replicate [i]: the four appends to [currVec]. *)
Definition feature_vector (hapArraysIn : list hapArrayIn)
    (positionArrays : list positionArray) (i : nat)
  : result (list stat) :=
  (h <- index hapArraysIn i ;;
   haps <- HaplotypeArray h ;;
   genos <- to_genotypes haps 2 ;;
   ac <- count_alleles genos ;;
   pos <- index positionArrays i ;;
   d <- tajima_d ac pos ;;
   p <- sequence_diversity pos ac ;;
   w <- watterson_theta pos ac ;;
   g <- garud_h haps ;;
   Ok [d; p; w; first4 g])%result.

(** The body of the loop: [currVec] is built and appended (the progress
    message is not modelled). *)
Definition loop_body (hapArraysIn : list hapArrayIn)
    (positionArrays : list positionArray) (i : nat) : M unit :=
  currVec <~ lift (feature_vector hapArraysIn positionArrays i) ;;
  append_X currVec.

(** The rows that the loop appends for the indices [idx], and how the
    loop ends: the loop stops at the first feature vector that raises. *)
Fixpoint collect_rows (f : nat -> result (list stat)) (idx : list nat)
  : list (list stat) * result unit :=
  match idx with
  | [] => ([], Ok tt)
  | i :: idx' =>
      match f i with
      | Error e => ([], Error e)
      | Ok row => let (rows, r) := collect_rows f idx' in (row :: rows, r)
      end
  end.

(** [np.array(X)] on a list of rows: the model keeps the rows. *)
Definition np_array (X : list (list stat)) : list (list stat) := X.

(** The cell up to and including [Y = np.loadtxt(...)]; its last
    statement, the call of [train_test_split], follows in [third_cell]. *)
Definition assembler_cell (totalPhysLen : Z) (fs : filesystem) : M unit :=
  parsed <~ lift (msOutToHaplotypeArrayIn fs msOut_file totalPhysLen) ;;
  let (hapArraysIn, positionArrays) := parsed in
  set_X [] ;;>
  for_range (length hapArraysIn) (loop_body hapArraysIn positionArrays) ;;>
  X <~ get_X ;;
  set_X (np_array X) ;;>
  Y <~ lift (loadtxt fs sizes_file) ;;
  set_Y Y.

(** What a feature vector that was computed consists of. *)
Definition four_statistics (hs : list hapArrayIn) (ps : list positionArray)
    (i : nat) (row : list stat) : Prop :=
  exists h haps genos ac pos d p w g,
    nth_error hs i = Some h /\
    HaplotypeArray h = Ok haps /\
    to_genotypes haps 2 = Ok genos /\
    count_alleles genos = Ok ac /\
    nth_error ps i = Some pos /\
    tajima_d ac pos = Ok d /\
    sequence_diversity pos ac = Ok p /\
    watterson_theta pos ac = Ok w /\
    garud_h haps = Ok g /\
    row = [d; p; w; first4 g].

(** The cell as one case distinction on what its parts return. *)
Definition cell_outcome (totalPhysLen : Z) (fs : filesystem) (ns : namespace)
  : namespace * result unit :=
  match msOutToHaplotypeArrayIn fs msOut_file totalPhysLen with
  | Error e => (ns, Error e)
  | Ok (hs, ps) =>
      let (rows, r) :=
        collect_rows (feature_vector hs ps) (seq 0 (length hs)) in
      match r with
      | Error e => ({| ns_X := Some rows; ns_Y := ns_Y ns |}, Error e)
      | Ok _ =>
          match loadtxt fs sizes_file with
          | Error e => ({| ns_X := Some rows; ns_Y := ns_Y ns |}, Error e)
          | Ok Y => ({| ns_X := Some rows; ns_Y := Some Y |}, Ok tt)
          end
      end
  end.
End Assembler.

(** The total length of the notebook. *)
Definition reference_totalPhysLen : Z := 10000.

(** ** The last statement of the third cell

    [X_train, X_test, Y_train, Y_test = train_test_split(X,Y,test_size=0.1)]
    ends the cell.  The function of scikit-learn is a parameter: it
    returns the four arrays or raises. *)

Record partition `{Allel} := {
  X_train : list (list stat);
  X_test : list (list stat);
  Y_train : list Q;
  Y_test : list Q
}.

Class Sklearn `{Allel} := {
  train_test_split : list (list stat) -> list Q -> Q -> result partition
}.

Section WholeCell.
Context `{MsTools} `{A : Allel} `{@Sklearn A}.

Definition get_Y : M (list Q) :=
  fun ns => (ns, of_option NameError (ns_Y ns)).

(** The whole cell: the statements of [assembler_cell], then the call of
    [train_test_split] on the [X] and [Y] they have bound. *)
Definition third_cell (totalPhysLen : Z) (fs : filesystem) : M partition :=
  mbind (assembler_cell totalPhysLen fs) (fun _ =>
  mbind get_X (fun X =>
  mbind get_Y (fun Y =>
  lift (train_test_split X Y (1 # 10))))).
End WholeCell.

(** ** The parser of [msTools.py] *)

Module MsToolsSpec.

(** Modelled from the spec: [msTools.py], the file of this repository
    that defines [msOutToHaplotypeArrayIn], is not among the sources; the
    definitions of this module follow sections 4.2 and 6 of the
    specification.

    - The stream is a command-echo header line followed by blocks that
      are separated by blank lines.  The header is not a block; the
      sample count of the run is the second word of the echoed command.
    - A block is a segregating-site count line, a line of positions
      separated by blanks, and one line of 0/1 characters per sample,
      each as long as the count.  A replicate without segregating sites
      is its count line alone (its other lines would be blank).
    - A position is multiplied by the total length and floored.  The
      total length is meant to exceed the segregating-site count of every
      replicate, "otherwise position collisions silently corrupt
      downstream statistics"; this margin "is asserted only implicitly"
      by the constant chosen "in the original workflow", so the parser
      compares nothing.
    - A malformed block fails the whole run.

    [blocks]: the blocks of the lines after the header, "blocks separated
    by blank lines". *)
Definition blocks (ls : list text) : list (list text) :=
  runs_from (fun l => negb (nonblank l)) [] ls.

(** Modelled from the spec: the sample count of the run, read from the
    "command-echo header line" (the simulator is invoked with "sample
    count, replicate count, ..."). *)
Definition header_samples (header : text) : result nat :=
  match words header with
  | _ :: n :: _ =>
      of_option FormatError (option_map N.to_nat (digits_value n))
  | _ => Error FormatError
  end.

(** Modelled from the spec: one character of a sample line, "0 = ancestral
    allele, 1 = derived allele". *)
Definition parse_allele (c : ascii) : result Z :=
  if Ascii.eqb c "0" then Ok 0%Z
  else if Ascii.eqb c "1" then Ok 1%Z
  else Error FormatError.

(** Modelled from the spec: "parse each sample line into a row of 0/1
    integers"; the lines are "fixed-length binary strings". *)
Definition parse_sample (segsites : nat) (l : text) : result (list Z) :=
  if Nat.eqb (length l) segsites then rmap parse_allele l
  else Error FormatError.

(** Modelled from the spec: "parse the site-position line into a sequence
    of floats" ("space-separated floats"). *)
Definition parse_positions (l : text) : result (list Q) :=
  rmap (fun w => of_option FormatError (parse_float w)) (words l).

(** Modelled from the spec: "multiply each by a caller-supplied total
    length and round/floor to an integer coordinate". *)
Definition discretize (totalPhysLen : Z) (p : Q) : Z :=
  Qfloor (p * inject_Z totalPhysLen).

(** Modelled from the spec: one block.  "Malformed blocks (wrong sample
    count, unparsable lines) should fail the whole run"; the total length
    is used for the positions only. *)
Definition parse_block (numSamples : nat) (totalPhysLen : Z)
    (b : list text) : result (hapArrayIn * positionArray) :=
  match b with
  | [] => Error FormatError
  | count_line :: rest =>
      (k <- of_option FormatError (digits_value count_line) ;;
       match rest with
       | [] =>
           if (k =? 0)%N then Ok (repeat [] numSamples, [])
           else Error FormatError
       | pos_line :: sample_lines =>
           ps <- parse_positions pos_line ;;
           if negb (Nat.eqb (length ps) (N.to_nat k))
           then Error FormatError
           else if negb (Nat.eqb (length sample_lines) numSamples)
           then Error FormatError
           else
             rows <- rmap (parse_sample (N.to_nat k)) sample_lines ;;
             Ok (rows, map (discretize totalPhysLen) ps)
       end)%result
  end.



(** Modelled from the spec: the "command-echo header line", the first
    line of the stream. *)
Definition stream_header (s : text) : result text :=
  match splitlines s with
  | [] => Error FormatError
  | header :: _ => Ok header
  end.

(** Modelled from the spec: the blocks of a stream, the header skipped. *)
Definition stream_blocks (s : text) : list (list text) :=
  blocks (tl (splitlines s)).

(** Modelled from the spec: the whole stream, one replicate per block in
    the order of the stream; the first block that fails ends the run. *)
Definition parse_stream (s : text) (totalPhysLen : Z)
  : result (list hapArrayIn * list positionArray) :=
  (header <- stream_header s ;;
   numSamples <- header_samples header ;;
   reps <- rmap (parse_block numSamples totalPhysLen) (stream_blocks s) ;;
   Ok (map fst reps, map snd reps))%result.

(** Modelled from the spec: [msOutToHaplotypeArrayIn(msOutputFileName,
    totalPhysLen)] of [msTools.py], as the cell calls it. *)
Definition msOutToHaplotypeArrayIn_spec (fs : filesystem) (name : string)
    (totalPhysLen : Z) : result (list hapArrayIn * list positionArray) :=
  rbind (fs_read fs name) (fun s => parse_stream s totalPhysLen).

(** What makes a block malformed for a run of [numSamples] samples: a
    line that does not parse or has the wrong length, or a wrong number of
    sample lines. *)
Inductive malformed (numSamples : nat) : list text -> Prop :=
| bad_count_line c rest :
    digits_value c = None -> malformed numSamples (c :: rest)
| bad_position_line c p rows w :
    In w (words p) -> parse_float w = None ->
    malformed numSamples (c :: p :: rows)
| wrong_position_count c k p rows :
    digits_value c = Some k -> length (words p) <> N.to_nat k ->
    malformed numSamples (c :: p :: rows)
| wrong_sample_count c p rows :
    length rows <> numSamples -> malformed numSamples (c :: p :: rows)
| missing_lines c k :
    digits_value c = Some k -> k <> 0%N -> malformed numSamples [c]
| bad_sample_line c p rows r a :
    In r rows -> In a r -> a <> "0"%char -> a <> "1"%char ->
    malformed numSamples (c :: p :: rows)
| wrong_sample_length c k p rows r :
    digits_value c = Some k -> In r rows -> length r <> N.to_nat k ->
    malformed numSamples (c :: p :: rows).

End MsToolsSpec.

Definition spec_msTools : MsTools :=
  {| msOutToHaplotypeArrayIn := MsToolsSpec.msOutToHaplotypeArrayIn_spec |}.

(** ** Instances for running the cells on examples *)

Module Standin.

(** A linear congruential generator on 53 bits; a draw is a multiple of
    [2^-53] in [[0,1)]. *)
Definition lcg_next (s : N) : N :=
  ((6364136223846793005 * s + 1442695040888963407) mod 9007199254740992)%N.

Definition lcg_random (s : N) : Q * N :=
  let s' := lcg_next s in (Z.of_N s' # 9007199254740992, s').

(** A stand-in for the power: the chords of [b^e] between the exponents
    -1, 0 and 1. *)
Definition chord_pow (b e : Q) : Q :=
  if Qle_bool 0 e then 1 + (b - 1) * e else 1 + (1 - 1 / b) * e.

Definition lcg : PyFloat :=
  {| rng := N; random := lcg_random; float_pow := chord_pow |}.

(** A parser that returns the given arrays. *)
Definition returning
    (r : result (list hapArrayIn * list positionArray)) : MsTools :=
  {| msOutToHaplotypeArrayIn := fun _ _ _ => r |}.

Definition column_sums (h : hapArrayIn) : list Z :=
  map (fun row => fold_right Z.add 0%Z row) h.

(** Statistics that always return: the number of sites and the number of
    derived alleles stand for the four statistics. *)
Definition counting : Allel :=
  {| stat := Z;
     haplotypes := hapArrayIn;
     genotypes := hapArrayIn;
     allele_counts := list Z;
     HaplotypeArray := fun h => Ok h;
     to_genotypes := fun h _ => Ok h;
     count_alleles := fun g => Ok (column_sums g);
     tajima_d := fun ac pos => Ok 0%Z;
     sequence_diversity := fun pos ac => Ok (fold_right Z.add 0%Z ac);
     watterson_theta := fun pos ac => Ok (Z.of_nat (length pos));
     garud_h := fun h => Ok (1%Z, 1%Z, 1%Z, 0%Z) |}.

Definition unbound : @namespace counting :=
  {| ns_X := None; ns_Y := None |}.

(** A namespace in which an earlier cell has left some [X]. *)
Definition stale : @namespace counting :=
  @Build_namespace counting (Some [[7%Z]]) None.

Definition no_files : filesystem := fun _ => None.

(** Replicates of four samples and four segregating sites each, at 0.1,
    0.4, 0.6, 0.9 and at 0.2, 0.3, 0.7, 0.8 of a total length of 10000. *)
Definition rep_a : hapArrayIn :=
  [[0; 1; 0; 1]; [1; 1; 0; 0]; [0; 0; 1; 1]; [0; 1; 1; 0]]%Z.
Definition rep_b : hapArrayIn :=
  [[1; 0; 0; 1]; [1; 1; 0; 0]; [0; 0; 1; 0]; [0; 1; 1; 1]]%Z.
Definition pos_a : positionArray := [1000; 4000; 6000; 9000]%Z.
Definition pos_b : positionArray := [2000; 3000; 7000; 8000]%Z.

Definition two_replicates : list hapArrayIn * list positionArray :=
  ([rep_a; rep_b], [pos_a; pos_b]).

Definition three_replicates : list hapArrayIn * list positionArray :=
  ([rep_a; rep_b; rep_a], [pos_a; pos_b; pos_a]).

(** A parameter file of two values. *)
Definition two_labels : filesystem :=
  fs_write sizes_file (file_of_lines [txt "2.500000"; txt "0.800000"])
    no_files.

(** Simulator output in the grammar of [MsToolsSpec]: a run of four
    samples and two replicates. *)
Definition stream_lines : list text :=
  [txt "./ms 4 2 -t 5 -r 5 10000"; [];
   txt "4"; txt "0.1 0.4 0.6 0.9";
   txt "0101"; txt "1100"; txt "0011"; txt "0110"; [];
   txt "4"; txt "0.2 0.3 0.7 0.8";
   txt "1001"; txt "1100"; txt "0010"; txt "0111"].

Definition simulated (fs : filesystem) : filesystem :=
  ms_cell (file_of_lines stream_lines) fs.

(** The same run with the last sample line of the second replicate
    missing. *)
Definition short_stream_lines : list text :=
  [txt "./ms 4 2 -t 5 -r 5 10000"; [];
   txt "4"; txt "0.1 0.4 0.6 0.9";
   txt "0101"; txt "1100"; txt "0011"; txt "0110"; [];
   txt "4"; txt "0.2 0.3 0.7 0.8";
   txt "1001"; txt "1100"; txt "0010"].

End Standin.

(** ** The generator across runs of the sampler *)

Section SamplerRuns.
Context `{PyFloat}.

(** The state of the generator after [n] calls of [random.random()]. *)
Fixpoint rng_after (n : nat) (g : rng) : rng :=
  match n with
  | O => g
  | S n' => rng_after n' (snd (random g))
  end.
End SamplerRuns.

(** ** The third cell with its progress messages

    The loop of the cell reports its progress on the standard output.  The
    two copies of the notebook differ here: one calls
    [sys.stdout.write("done with %d instances\n" %(i))], the other uses
    the statement [print "done with %d instances\n" %(i)], which adds a
    newline of its own, and prints the empty string after the loop. *)

Inductive printing : Type :=
| StdoutWrite      (* sys.stdout.write(...) *)
| PrintStatement.  (* print ... *)

(** The line of the report of index [i]. *)
Definition progress_line (i : nat) : text :=
  txt "done with " ++ int_digits (N.of_nat i) ++ txt " instances".

(** ["done with %d instances\n" %(i)] for an index of [range]. *)
Definition progress_text (i : nat) : text := progress_line i ++ [newline].

(** What the report of index [i] puts on the standard output. *)
Definition report (v : printing) (i : nat) : text :=
  match v with
  | StdoutWrite => progress_text i
  | PrintStatement => progress_text i ++ [newline]
  end.

(** [i % 1000 == 0] *)
Definition reports (i : nat) : bool := Nat.eqb (i mod 1000) 0.

(** The reports of the indices below [s], in order. *)
Definition progress_upto (v : printing) (s : nat) : text :=
  concat (map (report v) (filter reports (seq 0 s))).

Section AssemblerOutput.
Context `{MsTools} `{Allel}.

(** Statements on the namespace and the standard output. *)
Definition MO (A : Type) :=
  namespace * text -> (namespace * text) * result A.

Definition oret {A} (a : A) : MO A := fun st => (st, Ok a).

Definition obind {A B} (m : MO A) (k : A -> MO B) : MO B :=
  fun st =>
    match m st with
    | (st', Ok a) => k a st'
    | (st', Error e) => (st', Error e)
    end.

(** A statement that does not print. *)
Definition quiet {A} (m : M A) : MO A :=
  fun st => let (ns', r) := m (fst st) in ((ns', snd st), r).

Definition stdout_write (s : text) : MO unit :=
  fun st => ((fst st, snd st ++ s), Ok tt).

Local Notation "x <~ m ;; k" := (obind m (fun x => k))
  (at level 61, m at next level, right associativity).
Local Notation "m ;;> k" := (obind m (fun _ => k))
  (at level 61, right associativity).

(** The body of the loop with its report. *)
Definition loop_body_out (v : printing) (hapArraysIn : list hapArrayIn)
    (positionArrays : list positionArray) (i : nat) : MO unit :=
  (if reports i then stdout_write (report v i) else oret tt) ;;>
  quiet (loop_body hapArraysIn positionArrays i).

Fixpoint for_each_out {A} (l : list A) (body : A -> MO unit) : MO unit :=
  match l with
  | [] => oret tt
  | a :: l' => body a ;;> for_each_out l' body
  end.

(** The [print] of the empty string after the loop, in the copy that has
    it: a newline. *)
Definition after_loop (v : printing) : MO unit :=
  match v with
  | StdoutWrite => oret tt
  | PrintStatement => stdout_write [newline]
  end.

(** What the statement after the loop puts on the standard output. *)
Definition after_loop_text (v : printing) : text :=
  match v with
  | StdoutWrite => []
  | PrintStatement => [newline]
  end.

(** The cell, up to and including [Y = np.loadtxt(...)]. *)
Definition assembler_cell_out (v : printing) (totalPhysLen : Z)
    (fs : filesystem) : MO unit :=
  parsed <~ quiet (lift (msOutToHaplotypeArrayIn fs msOut_file totalPhysLen)) ;;
  let (hapArraysIn, positionArrays) := parsed in
  quiet (set_X []) ;;>
  for_each_out (seq 0 (length hapArraysIn))
    (loop_body_out v hapArraysIn positionArrays) ;;>
  after_loop v ;;>
  X <~ quiet get_X ;;
  quiet (set_X (np_array X)) ;;>
  Y <~ quiet (lift (loadtxt fs sizes_file)) ;;
  quiet (set_Y Y).

(** The indices at which the loop enters its body: those of [idx] up to
    and including the first one whose feature vector raises. *)
Fixpoint started (f : nat -> result (list stat)) (idx : list nat)
  : list nat :=
  match idx with
  | [] => []
  | i :: idx' =>
      match f i with
      | Error _ => [i]
      | Ok _ => i :: started f idx'
      end
  end.
End AssemblerOutput.

(** ** More examples *)

Module Examples.

(** Three replicates, but positions for two of them only. *)
Definition short_positions : list hapArrayIn * list positionArray :=
  ([Standin.rep_a; Standin.rep_b; Standin.rep_a],
   [Standin.pos_a; Standin.pos_b]).

(** A stand-in for [train_test_split]: it raises when the numbers of rows
    and of labels differ, and otherwise keeps the last row and label for
    the test set. *)
Definition last_out_split (X : list (list Z)) (Y : list Q) (test_size : Q)
  : result (@partition Standin.counting) :=
  if Nat.eqb (length X) (length Y)
  then Ok (@Build_partition Standin.counting
             (removelast X) (skipn (length X - 1) X)
             (removelast Y) (skipn (length Y - 1) Y))
  else Error ValueError.

Definition last_out : @Sklearn Standin.counting :=
  @Build_Sklearn Standin.counting last_out_split.


End Examples.

(** * Properties *)

(** ** Results *)

Lemma rmap_length {A B} (f : A -> result B) l bs :
  rmap f l = Ok bs -> length bs = length l.
Proof.
  revert bs; induction l as [|a l IH]; simpl; intros bs Hm.
  - now inversion Hm.
  - destruct (f a); [|discriminate].
    destruct (rmap f l); [|discriminate].
    inversion Hm; subst; simpl. f_equal. now apply IH.
Qed.

Lemma rmap_nth {A B} (f : A -> result B) l bs i a :
  rmap f l = Ok bs -> nth_error l i = Some a ->
  exists b, f a = Ok b /\ nth_error bs i = Some b.
Proof.
  revert bs i; induction l as [|a0 l IH]; simpl; intros bs i Hm Hn.
  - destruct i; discriminate.
  - destruct (f a0) as [b0|] eqn:Hf; [|discriminate].
    destruct (rmap f l) as [bs'|]; [|discriminate].
    inversion Hm; subst. destruct i; simpl in *.
    + inversion Hn; subst. now exists b0.
    + now apply IH.
Qed.

Lemma rmap_error_in {A B} (f : A -> result B) l a :
  In a l -> is_error (f a) -> is_error (rmap f l).
Proof.
  induction l as [|a0 l IH]; simpl; [tauto|].
  intros [-> | Hin] He.
  - destruct (f a); [contradiction | exact I].
  - destruct (f a0); [|exact I].
    specialize (IH Hin He). destruct (rmap f l); [contradiction | exact I].
Qed.

Lemma rmap_all_ok {A B} (f : A -> result B) (g : A -> B) l :
  (forall a, In a l -> f a = Ok (g a)) -> rmap f l = Ok (map g l).
Proof.
  induction l as [|a l IH]; simpl; intros Hf; [reflexivity|].
  rewrite (Hf a) by now left. rewrite IH; [reflexivity|].
  intros; apply Hf; now right.
Qed.

(** ** Lines *)

Lemma splitlines_from_line l : forall cur rest,
  no_newline l ->
  splitlines_from cur (l ++ newline :: rest)
  = (rev cur ++ l) :: splitlines_from [] rest.
Proof.
  induction l as [|c l IH]; simpl; intros cur rest Hl.
  - now rewrite app_nil_r.
  - inversion Hl as [|? ? Hc Hl']; subst.
    destruct (Ascii.eqb c newline) eqn:E.
    + apply Ascii.eqb_eq in E. contradiction.
    + rewrite IH by assumption. simpl. now rewrite <- app_assoc.
Qed.

Lemma splitlines_terminated ls :
  Forall no_newline ls ->
  splitlines (file_of_lines ls) = ls.
Proof.
  unfold splitlines, file_of_lines. induction ls as [|l ls IH]; simpl; intros Hls.
  - reflexivity.
  - inversion Hls; subst. rewrite <- app_assoc. simpl.
    rewrite splitlines_from_line by assumption. simpl. f_equal. now apply IH.
Qed.

(** ** Digits *)

Lemma digit_value_char d : (d < 10)%N -> digit_value (digit_char d) = Some d.
Proof.
  intros Hd.
  assert (Hc : (d = 0 \/ d = 1 \/ d = 2 \/ d = 3 \/ d = 4 \/ d = 5 \/ d = 6
                \/ d = 7 \/ d = 8 \/ d = 9)%N) by lia.
  repeat (destruct Hc as [-> | Hc]; [reflexivity|]). now subst.
Qed.

Lemma digit_char_is_digit d : (d < 10)%N -> is_digit (digit_char d).
Proof. intros Hd. unfold is_digit. now rewrite digit_value_char. Qed.

Lemma is_digit_not c a : digit_value a = None -> is_digit c -> Ascii.eqb c a = false.
Proof.
  intros Ha Hc. destruct (Ascii.eqb c a) eqn:E; [|reflexivity].
  apply Ascii.eqb_eq in E. subst. contradiction.
Qed.

Lemma digits_value_from_app s1 : forall acc s2,
  digits_value_from acc (s1 ++ s2)
  = match digits_value_from acc s1 with
    | Some v => digits_value_from v s2
    | None => None
    end.
Proof.
  induction s1 as [|c s1 IH]; simpl; intros acc s2; [reflexivity|].
  destruct (digit_value c); [apply IH | reflexivity].
Qed.

Lemma mod10_lt n : (n mod 10 < 10)%N.
Proof. apply N.mod_lt. discriminate. Qed.

Lemma fixed_digits_length k : forall n, length (fixed_digits k n) = k.
Proof.
  induction k as [|k IH]; simpl; intros n; [reflexivity|].
  rewrite length_app, IH. simpl. lia.
Qed.

Lemma fixed_digits_all_digits k : forall n, Forall is_digit (fixed_digits k n).
Proof.
  induction k as [|k IH]; simpl; intros n; [constructor|].
  apply Forall_app. split; [apply IH|].
  constructor; [|constructor]. apply digit_char_is_digit, mod10_lt.
Qed.

Lemma pow10_pos_spec k : Npos (pow10_pos k) = (10 ^ N.of_nat k)%N.
Proof.
  induction k as [|k IH].
  - reflexivity.
  - rewrite Nat2N.inj_succ, N.pow_succ_r'. rewrite <- IH. reflexivity.
Qed.

Lemma fixed_digits_value k : forall n acc,
  digits_value_from acc (fixed_digits k n)
  = Some (acc * 10 ^ N.of_nat k + n mod 10 ^ N.of_nat k)%N.
Proof.
  induction k as [|k IH]; intros n acc.
  - simpl. rewrite N.mod_1_r. f_equal. lia.
  - cbn [fixed_digits]. rewrite digits_value_from_app, IH. cbn [digits_value_from].
    rewrite digit_value_char by apply mod10_lt.
    f_equal. rewrite Nat2N.inj_succ, N.pow_succ_r'.
    rewrite (N.Div0.mod_mul_r n 10 (10 ^ N.of_nat k)). lia.
Qed.

Lemma int_digits_aux_all_digits fuel : forall n, Forall is_digit (int_digits_aux fuel n).
Proof.
  induction fuel as [|f IH]; simpl; intros n; [constructor|].
  destruct (n <? 10)%N eqn:E.
  - constructor; [|constructor]. apply digit_char_is_digit. now apply N.ltb_lt.
  - apply Forall_app. split; [apply IH|].
    constructor; [|constructor]. apply digit_char_is_digit, mod10_lt.
Qed.

Lemma digits_value_from_0 s v : digits_value s = Some v -> digits_value_from 0 s = Some v.
Proof. destruct s; [discriminate | trivial]. Qed.

Lemma digits_value_snoc s c : digits_value (s ++ [c]) = digits_value_from 0 (s ++ [c]).
Proof. destruct s; reflexivity. Qed.

Lemma int_digits_aux_value fuel : forall n,
  (n < 2 ^ N.of_nat fuel)%N -> fuel <> O ->
  digits_value (int_digits_aux fuel n) = Some n.
Proof.
  induction fuel as [|f IH]; intros n Hn Hf; [contradiction|].
  cbn [int_digits_aux]. destruct (n <? 10)%N eqn:E.
  - apply N.ltb_lt in E. cbn [digits_value digits_value_from].
    rewrite digit_value_char by assumption. reflexivity.
  - apply N.ltb_ge in E.
    rewrite Nat2N.inj_succ, N.pow_succ_r' in Hn.
    assert (Hdiv : (n / 10 < 2 ^ N.of_nat f)%N).
    { apply N.Div0.div_lt_upper_bound. lia. }
    assert (Hf' : f <> O).
    { intros ->. simpl in Hn. lia. }
    rewrite digits_value_snoc, digits_value_from_app.
    rewrite (digits_value_from_0 _ _ (IH _ Hdiv Hf')).
    cbn [digits_value_from]. rewrite digit_value_char by apply mod10_lt.
    f_equal. pose proof (N.div_mod n 10 ltac:(discriminate)). lia.
Qed.

Lemma int_digits_value n : digits_value (int_digits n) = Some n.
Proof.
  unfold int_digits. apply int_digits_aux_value; [|discriminate].
  rewrite Nat2N.inj_succ, N2Nat.id.
  destruct n as [|p]; [reflexivity|].
  apply N.log2_spec. reflexivity.
Qed.

Lemma int_digits_all_digits n : Forall is_digit (int_digits n).
Proof. apply int_digits_aux_all_digits. Qed.

Lemma int_digits_nonempty n : int_digits n <> [].
Proof.
  intros E. pose proof (int_digits_value n) as Hv. rewrite E in Hv. discriminate.
Qed.

(** ** Reading back what ["%f"] wrote *)

Lemma split_at_dot_digits ds f :
  Forall is_digit ds -> split_at_dot (ds ++ dot :: f) = (ds, Some f).
Proof.
  induction 1 as [|c ds Hc Hds IH]; simpl.
  - reflexivity.
  - rewrite (is_digit_not c dot) by (reflexivity || assumption).
    now rewrite IH.
Qed.

Lemma parse_unsigned_fixed i v :
  (v < 1000000)%N ->
  parse_unsigned (int_digits i ++ dot :: fixed_digits 6 v)
  = Some (Z.of_N (i * 1000000 + v) # 1000000).
Proof.
  intros Hv. unfold parse_unsigned.
  rewrite split_at_dot_digits by apply int_digits_all_digits.
  rewrite int_digits_value, fixed_digits_value, fixed_digits_length.
  change (10 ^ N.of_nat 6)%N with 1000000%N.
  rewrite N.mod_small by assumption. reflexivity.
Qed.

Lemma micro_mod_lt m : (m mod 1000000 < 1000000)%N.
Proof. apply N.mod_lt. discriminate. Qed.

Lemma micro_div_mod m : (m / 1000000 * 1000000 + m mod 1000000 = m)%N.
Proof. pose proof (N.div_mod m 1000000 ltac:(discriminate)). lia. Qed.

Lemma parse_float_digits s c :
  is_digit c -> parse_float (c :: s) = parse_unsigned (c :: s).
Proof.
  intros Hc. unfold parse_float.
  rewrite (is_digit_not c minus), (is_digit_not c plus); trivial.
Qed.

Lemma parse_format_f x : parse_float (format_f x) = Some (round6 x).
Proof.
  unfold format_f, round6. set (m := round6_micro x).
  pose proof (parse_unsigned_fixed (m / 1000000) (m mod 1000000) (micro_mod_lt m)) as Hp.
  rewrite micro_div_mod in Hp.
  destruct (Qnum x <? 0)%Z.
  - cbn [app parse_float]. change (Ascii.eqb minus minus) with true. cbn iota.
    rewrite Hp. reflexivity.
  - cbn [app].
    pose proof (int_digits_all_digits (m / 1000000)) as Hd.
    pose proof (int_digits_nonempty (m / 1000000)) as Hne.
    destruct (int_digits (m / 1000000)) as [|c ds] eqn:E; [contradiction|].
    inversion Hd; subst. cbn [app] in *. rewrite parse_float_digits by assumption.
    exact Hp.
Qed.

(** ** Rounding to six places *)

Lemma round_half_even_cases num den :
  let q := (num / Npos den)%N in
  let r := (num mod Npos den)%N in
  (num = Npos den * q + r)%N /\ (r < Npos den)%N /\
  ((round_half_even num den = q /\ (2 * r <= Npos den)%N) \/
   (round_half_even num den = (q + 1)%N /\ (Npos den <= 2 * r)%N)).
Proof.
  intros q r. split; [apply N.div_mod; discriminate|].
  split; [apply N.mod_lt; discriminate|].
  unfold round_half_even. fold q r.
  destruct (N.compare_spec (2 * r) (Npos den)) as [E|E|E].
  - destruct (N.even q); [left | right]; split; trivial; lia.
  - left. split; trivial; lia.
  - right. split; trivial; lia.
Qed.

Lemma round_half_even_near num den :
  (2 * Z.abs (Z.of_N (round_half_even num den) * Zpos den - Z.of_N num)
   <= Zpos den)%Z.
Proof.
  destruct (round_half_even_cases num den) as (Hnum & Hr & [[-> H2] | [-> H2]]);
    set (q := (num / Npos den)%N) in *; set (r := (num mod Npos den)%N) in *;
    nia.
Qed.

Lemma round6_near x : Qabs (round6 x - x) <= 1 # 2000000.
Proof.
  destruct x as [n d]. unfold round6, round6_micro. cbn [Qnum Qden].
  pose proof (round_half_even_near (Z.abs_N n * 1000000) d) as Hn.
  set (m := round_half_even (Z.abs_N n * 1000000) d) in *.
  unfold Qle, Qabs, Qminus, Qplus, Qopp. cbn [Qnum Qden].
  destruct (Z.ltb_spec n 0); rewrite Pos2Z.inj_mul; nia.
Qed.

Lemma round6_micro_range x :
  1 # 10 <= x -> x <= 10 # 1 ->
  (100000 <= round6_micro x <= 10000000)%N.
Proof.
  destruct x as [n d]. unfold Qle, round6_micro. cbn [Qnum Qden]. intros Hlo Hhi.
  destruct (round_half_even_cases (Z.abs_N n * 1000000) d) as (Hnum & Hr & Hc).
  set (q := (Z.abs_N n * 1000000 / Npos d)%N) in *.
  set (r := ((Z.abs_N n * 1000000) mod Npos d)%N) in *.
  destruct Hc as [[-> H2] | [-> H2]]; nia.
Qed.

Lemma round6_range x :
  1 # 10 <= x -> x <= 10 # 1 -> 1 # 10 <= round6 x /\ round6 x <= 10 # 1.
Proof.
  intros Hlo Hhi. pose proof (round6_micro_range x Hlo Hhi) as Hm.
  unfold round6. destruct x as [n d]. unfold Qle in *. cbn [Qnum Qden] in *.
  destruct (Z.ltb_spec n 0); [lia|]. cbn [Qnum Qden]. lia.
Qed.

(** ** The sampler *)

Lemma format_f_shape x :
  exists sign ip fp,
    format_f x = sign ++ ip ++ dot :: fp /\
    (sign = [] \/ sign = [minus]) /\
    ip <> [] /\ Forall is_digit ip /\
    Forall is_digit fp /\ length fp = 6%nat.
Proof.
  unfold format_f.
  exists (if (Qnum x <? 0)%Z then [minus] else []),
         (int_digits (round6_micro x / 1000000)),
         (fixed_digits 6 (round6_micro x mod 1000000)).
  split; [reflexivity|]. split; [destruct (Qnum x <? 0)%Z; auto|].
  split; [apply int_digits_nonempty|]. split; [apply int_digits_all_digits|].
  split; [apply fixed_digits_all_digits | apply fixed_digits_length].
Qed.

Lemma is_digit_not_newline c : is_digit c -> c <> newline.
Proof. intros Hc ->. now apply Hc. Qed.

Lemma format_f_no_newline x : no_newline (format_f x).
Proof.
  destruct (format_f_shape x) as (sg & ip & fp & -> & Hs & _ & Hip & Hfp & _).
  unfold no_newline. rewrite !Forall_app. repeat split.
  - destruct Hs as [-> | ->]; repeat constructor. discriminate.
  - eapply Forall_impl; [|exact Hip]. apply is_digit_not_newline.
  - constructor; [discriminate|].
    eapply Forall_impl; [|exact Hfp]. apply is_digit_not_newline.
Qed.

Lemma format_f_nonblank x : nonblank (format_f x) = true.
Proof.
  destruct (format_f_shape x) as (sg & ip & fp & -> & _ & Hne & _).
  destruct sg; [|reflexivity]. destruct ip; [contradiction | reflexivity].
Qed.

Section SamplerFacts.
Context `{PyFloat}.

Lemma popSizes_length n : forall g, length (popSizes n g) = n.
Proof.
  induction n as [|n IH]; simpl; intros g; [reflexivity|].
  destruct (random g). simpl. now rewrite IH.
Qed.

Lemma sampler_loop_file n : forall g f,
  snd (sampler_loop n (g, f))
  = f ++ file_of_lines (map format_f (popSizes n g)).
Proof.
  induction n as [|n IH]; intros g f; simpl.
  - now rewrite app_nil_r.
  - destruct (random g) as [u g'] eqn:E. rewrite IH.
    unfold file_of_lines. simpl. now rewrite <- !app_assoc.
Qed.

Lemma param_sampler_file n fs g :
  fst (param_sampler n fs g) sizes_file
  = Some (file_of_lines (map format_f (popSizes n g))).
Proof.
  unfold param_sampler.
  rewrite (surjective_pairing (sampler_loop n (g, []))). cbn [fst].
  unfold fs_write. rewrite String.eqb_refl. now rewrite sampler_loop_file.
Qed.

Lemma sampler_lines n g :
  splitlines (file_of_lines (map format_f (popSizes n g)))
  = map format_f (popSizes n g).
Proof.
  apply splitlines_terminated. apply Forall_forall. intros l Hl.
  apply in_map_iff in Hl. destruct Hl as (x & <- & _).
  apply format_f_no_newline.
Qed.

Lemma filter_nonblank_format xs :
  filter nonblank (map format_f xs) = map format_f xs.
Proof.
  induction xs as [|x xs IH]; simpl; [reflexivity|].
  now rewrite format_f_nonblank, IH.
Qed.

Lemma loadtxt_sampled n fs g fs' :
  fs' sizes_file = fst (param_sampler n fs g) sizes_file ->
  loadtxt fs' sizes_file = Ok (map round6 (popSizes n g)).
Proof.
  intros Hfs. unfold loadtxt, fs_read.
  rewrite Hfs, param_sampler_file. simpl.
  rewrite sampler_lines, filter_nonblank_format.
  rewrite (rmap_all_ok _ (fun l => match parse_float l with Some v => v | None => 0 end)).
  - rewrite map_map. f_equal. apply map_ext. intros x.
    now rewrite parse_format_f.
  - intros l Hl. apply in_map_iff in Hl. destruct Hl as (x & <- & _).
    now rewrite parse_format_f.
Qed.
End SamplerFacts.

Section SamplerRange.
Context `{PyFloat}.
Hypothesis random_range : forall g, 0 <= fst (random g) /\ fst (random g) < 1.
Hypothesis pow_range :
  forall e, -1 <= e -> e < 1 -> 1 # 10 <= float_pow 10 e /\ float_pow 10 e <= 10.

Lemma popSize_range g :
  1 # 10 <= popSize_of (fst (random g)) /\ popSize_of (fst (random g)) <= 10.
Proof.
  destruct (random_range g) as [H0 H1]. unfold popSize_of.
  apply pow_range; lra.
Qed.

Lemma popSizes_range n : forall g,
  Forall (fun x => 1 # 10 <= x /\ x <= 10) (popSizes n g).
Proof.
  induction n as [|n IH]; simpl; intros g; [constructor|].
  pose proof (popSize_range g) as Hr.
  destruct (random g) as [u g']. constructor; [exact Hr | apply IH].
Qed.

(** C4: a run of the sampler with count [n] leaves a parameter file of
    exactly [n] lines, one value per line in the order of generation and
    nothing before the first value; every line reads back as a float, and
    the value read lies between 0.1 and 10. *)
Theorem sampler_writes_n_values_in_range n fs g :
  exists ls,
    fst (param_sampler n fs g) sizes_file = Some (file_of_lines ls) /\
    splitlines (file_of_lines ls) = ls /\
    length ls = n /\
    ls = map format_f (popSizes n g) /\
    Forall (fun l => exists v,
              parse_float l = Some v /\ 1 # 10 <= v /\ v <= 10) ls.
Proof.
  exists (map format_f (popSizes n g)).
  split; [apply param_sampler_file|].
  split; [apply sampler_lines|].
  split; [now rewrite length_map, popSizes_length|].
  split; [reflexivity|].
  apply Forall_map. eapply Forall_impl; [|apply popSizes_range].
  intros x [Hlo Hhi]. exists (round6 x).
  split; [apply parse_format_f|]. now apply round6_range.
Qed.
End SamplerRange.

Lemma lcg_random_range (g : N) :
  0 <= fst (Standin.lcg_random g) /\ fst (Standin.lcg_random g) < 1.
Proof.
  unfold Standin.lcg_random, Standin.lcg_next. cbn [fst].
  set (s := ((6364136223846793005 * g + 1442695040888963407)
               mod 9007199254740992)%N).
  assert (Hs : (s < 9007199254740992)%N) by (apply N.mod_lt; discriminate).
  unfold Qle, Qlt. cbn [Qnum Qden]. lia.
Qed.

Lemma chord_pow_range e :
  -1 <= e -> e < 1 ->
  1 # 10 <= Standin.chord_pow 10 e /\ Standin.chord_pow 10 e <= 10.
Proof.
  intros Hlo Hhi. unfold Standin.chord_pow.
  destruct (Qle_bool 0 e) eqn:E.
  - apply Qle_bool_iff in E. lra.
  - assert (e < 0).
    { apply Qnot_le_lt. intros Hc. apply Qle_bool_iff in Hc. congruence. }
    change (1 - 1 / 10) with (9 # 10). lra.
Qed.

Lemma sampler_writes_n_values_in_range_witness :
  exists ls,
    fst (@param_sampler Standin.lcg 3 Standin.no_files 1%N) sizes_file
    = Some (file_of_lines ls) /\
    splitlines (file_of_lines ls) = ls /\
    length ls = 3%nat /\
    ls = map format_f (@popSizes Standin.lcg 3 1%N) /\
    Forall (fun l => exists v,
              parse_float l = Some v /\ 1 # 10 <= v /\ v <= 10) ls.
Proof.
  apply (@sampler_writes_n_values_in_range Standin.lcg
           lcg_random_range chord_pow_range).
Defined.

(** ** The cell that builds [X] and [Y] *)

Section AssemblerFacts.
Context `{MsTools} `{Allel}.

Lemma for_each_loop_body hs ps idx : forall ns X0,
  ns_X ns = Some X0 ->
  for_each idx (loop_body hs ps) ns
  = ({| ns_X := Some (X0 ++ fst (collect_rows (feature_vector hs ps) idx));
        ns_Y := ns_Y ns |},
     snd (collect_rows (feature_vector hs ps) idx)).
Proof.
  induction idx as [|i idx IH]; intros ns X0 HX.
  - simpl. unfold mret. rewrite app_nil_r. destruct ns; simpl in *. now subst.
  - cbn [for_each collect_rows]. unfold mbind at 1. unfold loop_body at 1.
    unfold mbind at 1, lift at 1.
    destruct (feature_vector hs ps i) as [row|e].
    + unfold append_X, mbind, get_X, set_X. rewrite HX. cbn [of_option].
      rewrite (IH _ (X0 ++ [row])) by reflexivity. cbn [ns_Y].
      destruct (collect_rows (feature_vector hs ps) idx) as [rows r].
      cbn [fst snd]. now rewrite <- app_assoc.
    + cbn [fst snd]. rewrite app_nil_r. destruct ns; simpl in *. now subst.
Qed.

Lemma assembler_cell_outcome totalPhysLen fs ns :
  assembler_cell totalPhysLen fs ns = cell_outcome totalPhysLen fs ns.
Proof.
  unfold assembler_cell, cell_outcome. unfold mbind at 1, lift at 1.
  destruct (msOutToHaplotypeArrayIn fs msOut_file totalPhysLen)
    as [[hs ps]|e]; [|reflexivity].
  unfold mbind at 1. unfold set_X at 1. unfold mbind at 1, for_range.
  rewrite (for_each_loop_body hs ps _ _ []) by reflexivity.
  cbn [app ns_Y].
  destruct (collect_rows (feature_vector hs ps) (seq 0 (length hs)))
    as [rows r]. cbn [fst snd].
  destruct r as [[]|e]; [|reflexivity].
  unfold mbind, get_X, set_X, np_array, lift, set_Y. cbn.
  destruct (loadtxt fs sizes_file); reflexivity.
Qed.

Lemma collect_rows_nth f idx : forall k row,
  nth_error (fst (collect_rows f idx)) k = Some row ->
  exists i, nth_error idx k = Some i /\ f i = Ok row.
Proof.
  induction idx as [|i idx IH]; simpl; intros k row Hk.
  - destruct k; discriminate.
  - destruct (f i) as [r0|e] eqn:Hf; [|destruct k; discriminate].
    destruct (collect_rows f idx) as [rows r]. simpl in *.
    destruct k as [|k]; simpl in *.
    + inversion Hk; subst. now exists i.
    + now apply IH.
Qed.

Lemma collect_rows_ok f idx :
  snd (collect_rows f idx) = Ok tt ->
  length (fst (collect_rows f idx)) = length idx.
Proof.
  induction idx as [|i idx IH]; simpl; [reflexivity|].
  destruct (f i) as [r0|e]; [|discriminate].
  destruct (collect_rows f idx) as [rows r]. simpl in *.
  intros Hr. now rewrite IH.
Qed.

Lemma nth_error_seq_0 n k i : nth_error (seq 0 n) k = Some i -> i = k /\ (k < n)%nat.
Proof.
  intros Hk.
  assert (Hlt : (k < length (seq 0 n))%nat).
  { apply nth_error_Some. congruence. }
  rewrite length_seq in Hlt. split; [|assumption].
  rewrite (nth_error_nth' _ 0%nat) in Hk by (now rewrite length_seq).
  rewrite seq_nth in Hk by assumption. inversion Hk. reflexivity.
Qed.

Lemma feature_vector_ok hs ps i row :
  feature_vector hs ps i = Ok row -> four_statistics hs ps i row.
Proof.
  unfold feature_vector, index, rbind, of_option, four_statistics.
  destruct (nth_error hs i) as [h|] eqn:Hh; [|discriminate].
  destruct (HaplotypeArray h) as [haps|] eqn:Hhaps; [|discriminate].
  destruct (to_genotypes haps 2) as [genos|] eqn:Hgenos; [|discriminate].
  destruct (count_alleles genos) as [ac|] eqn:Hac; [|discriminate].
  destruct (nth_error ps i) as [pos|] eqn:Hpos; [|discriminate].
  destruct (tajima_d ac pos) as [d|] eqn:Hd; [|discriminate].
  destruct (sequence_diversity pos ac) as [p|] eqn:Hp; [|discriminate].
  destruct (watterson_theta pos ac) as [w|] eqn:Hw; [|discriminate].
  destruct (garud_h haps) as [g|] eqn:Hg; [|discriminate].
  intros Hrow. inversion Hrow; subst.
  exists h, haps, genos, ac, pos, d, p, w, g. repeat split; assumption.
Qed.

Lemma cell_X_row_count totalPhysLen fs ns hs ps :
  msOutToHaplotypeArrayIn fs msOut_file totalPhysLen = Ok (hs, ps) ->
  exists X,
    ns_X (fst (assembler_cell totalPhysLen fs ns)) = Some X /\
    (snd (assembler_cell totalPhysLen fs ns) = Ok tt ->
     length X = length hs).
Proof.
  intros Hparse. rewrite assembler_cell_outcome. unfold cell_outcome.
  rewrite Hparse.
  pose proof (collect_rows_ok (feature_vector hs ps) (seq 0 (length hs)))
    as Hlen.
  destruct (collect_rows (feature_vector hs ps) (seq 0 (length hs)))
    as [rows r]. cbn [fst snd] in *.
  exists rows. split.
  - destruct r as [[]|e]; [destruct (loadtxt fs sizes_file)|]; reflexivity.
  - intros Hok. destruct r as [[]|e].
    + rewrite Hlen by reflexivity. apply length_seq.
    + discriminate.
Qed.

Lemma four_statistics_computed hs ps i row :
  four_statistics hs ps i row -> feature_vector hs ps i = Ok row.
Proof.
  intros (h & haps & genos & ac & pos & d & p & w & g
          & Hh & Hhaps & Hgenos & Hac & Hpos & Hd & Hp & Hw & Hg & ->).
  unfold feature_vector, index. rewrite Hh. cbn [of_option rbind].
  rewrite Hhaps. cbn [rbind]. rewrite Hgenos. cbn [rbind].
  rewrite Hac. cbn [rbind]. rewrite Hpos. cbn [of_option rbind].
  rewrite Hd. cbn [rbind]. rewrite Hp. cbn [rbind].
  rewrite Hw. cbn [rbind]. now rewrite Hg.
Qed.

Lemma collect_rows_complete f idx :
  (forall i, In i idx -> exists row, f i = Ok row) ->
  snd (collect_rows f idx) = Ok tt /\
  forall k i row,
    nth_error idx k = Some i -> f i = Ok row ->
    nth_error (fst (collect_rows f idx)) k = Some row.
Proof.
  induction idx as [|j idx IH]; simpl; intros Hall.
  - split; [reflexivity|]. intros [|k] i row Hk; discriminate.
  - destruct (Hall j) as [rj Hj]; [now left|]. rewrite Hj.
    destruct IH as [Hok Hnth]; [intros; apply Hall; now right|].
    destruct (collect_rows f idx) as [rows r]. cbn [fst snd] in *.
    split; [exact Hok|].
    intros [|k] i row Hk Hi; cbn [nth_error] in *.
    + inversion Hk; subst. congruence.
    + now apply (Hnth k i).
Qed.

(** C8: when the parser has returned, every row of [X] is the feature
    vector of the replicate with the same index: exactly four entries,
    in the order Tajima's D, pi, Watterson's theta and the first
    component of Garud's H; when the cell ends without raising, [X] has
    one such row for every replicate.  And the rows are there: when the
    library calls return on every replicate, [X] has as many rows as
    there are replicates, and row [i] is the list of the four values
    computed for replicate [i]. *)
Theorem feature_rows_are_the_four_statistics totalPhysLen fs ns hs ps :
  msOutToHaplotypeArrayIn fs msOut_file totalPhysLen = Ok (hs, ps) ->
  (exists X,
     ns_X (fst (assembler_cell totalPhysLen fs ns)) = Some X /\
     (forall i row, nth_error X i = Some row ->
        (i < length hs)%nat /\ length row = 4%nat /\
        four_statistics hs ps i row) /\
     (snd (assembler_cell totalPhysLen fs ns) = Ok tt ->
      length X = length hs)) /\
  ((forall i, (i < length hs)%nat -> exists row, four_statistics hs ps i row) ->
   exists X,
     ns_X (fst (assembler_cell totalPhysLen fs ns)) = Some X /\
     length X = length hs /\
     forall i row, four_statistics hs ps i row -> nth_error X i = Some row).
Proof.
  intros Hparse. rewrite assembler_cell_outcome. unfold cell_outcome.
  rewrite Hparse.
  pose proof (collect_rows_nth (feature_vector hs ps) (seq 0 (length hs)))
    as Hnth.
  pose proof (collect_rows_ok (feature_vector hs ps) (seq 0 (length hs)))
    as Hlen.
  pose proof (collect_rows_complete (feature_vector hs ps)
                (seq 0 (length hs))) as Hall.
  destruct (collect_rows (feature_vector hs ps) (seq 0 (length hs)))
    as [rows r]. cbn [fst snd] in *.
  assert (HX : ns_X (fst match r with
                        | Ok _ =>
                            match loadtxt fs sizes_file with
                            | Ok Y => ({| ns_X := Some rows; ns_Y := Some Y |}, Ok tt)
                            | Error e =>
                                ({| ns_X := Some rows; ns_Y := ns_Y ns |}, Error e)
                            end
                        | Error e =>
                            ({| ns_X := Some rows; ns_Y := ns_Y ns |}, Error e)
                        end) = Some rows).
  { destruct r as [[]|e]; [destruct (loadtxt fs sizes_file)|]; reflexivity. }
  split.
  - exists rows. split; [exact HX|]. split.
    + intros i row Hi. destruct (Hnth i row Hi) as (j & Hj & Hf).
      apply nth_error_seq_0 in Hj. destruct Hj as [-> Hlt].
      apply feature_vector_ok in Hf. split; [assumption|]. split; [|assumption].
      destruct Hf as (? & ? & ? & ? & ? & ? & ? & ? & ? & Hf).
      decompose [and] Hf. subst. reflexivity.
    + intros Hok. destruct r as [[]|e].
      * rewrite Hlen by reflexivity. apply length_seq.
      * discriminate.
  - intros Hcalls.
    destruct Hall as [Hr Hrows].
    { intros i Hi. apply in_seq in Hi. destruct (Hcalls i) as [row Hrow]; [lia|].
      exists row. now apply four_statistics_computed. }
    exists rows. split; [exact HX|]. split.
    + rewrite Hlen by exact Hr. apply length_seq.
    + intros i row Hrow.
      assert (Hi : (i < length hs)%nat).
      { destruct Hrow as (h & ? & ? & ? & ? & ? & ? & ? & ? & Hh & _).
        apply nth_error_Some. congruence. }
      apply (Hrows i i).
      * rewrite (nth_error_nth' _ 0%nat) by (now rewrite length_seq).
        now rewrite seq_nth.
      * now apply four_statistics_computed.
Qed.
End AssemblerFacts.

(** The stand-in statistics return on both replicates of the example. *)
Lemma four_statistics_of_two_replicates i :
  (i < 2)%nat ->
  exists row,
    @four_statistics Standin.counting (fst Standin.two_replicates)
      (snd Standin.two_replicates) i row.
Proof.
  intros Hi. destruct i as [|[|i]]; [| |lia].
  - exists [0; 8; 4; 1]%Z.
    exists Standin.rep_a, Standin.rep_a, Standin.rep_a,
      (Standin.column_sums Standin.rep_a), Standin.pos_a,
      0%Z, 8%Z, 4%Z, (1, 1, 1, 0)%Z.
    repeat split.
  - exists [0; 8; 4; 1]%Z.
    exists Standin.rep_b, Standin.rep_b, Standin.rep_b,
      (Standin.column_sums Standin.rep_b), Standin.pos_b,
      0%Z, 8%Z, 4%Z, (1, 1, 1, 0)%Z.
    repeat split.
Qed.

Lemma feature_rows_are_the_four_statistics_witness :
  (exists X,
     ns_X (fst (@assembler_cell (Standin.returning (Ok Standin.two_replicates))
                  Standin.counting 10000 Standin.two_labels Standin.unbound))
     = Some X /\
     length X = 2%nat /\
     forall i row,
       @four_statistics Standin.counting (fst Standin.two_replicates)
         (snd Standin.two_replicates) i row ->
       nth_error X i = Some row) /\
  ns_X (fst (@assembler_cell (Standin.returning (Ok Standin.two_replicates))
               Standin.counting 10000 Standin.two_labels Standin.unbound))
  = Some [[0; 8; 4; 1]; [0; 8; 4; 1]]%Z.
Proof.
  split; [|reflexivity].
  apply (proj2 (@feature_rows_are_the_four_statistics
                  (Standin.returning (Ok Standin.two_replicates))
                  Standin.counting 10000 Standin.two_labels Standin.unbound
                  (fst Standin.two_replicates) (snd Standin.two_replicates)
                  eq_refl)).
  exact four_statistics_of_two_replicates.
Defined.

(** ** Labels *)

Lemma loadtxt_ok fs name Y :
  loadtxt fs name = Ok Y ->
  exists content,
    fs name = Some content /\
    rmap (fun l => of_option ValueError (parse_float l))
      (filter nonblank (splitlines content)) = Ok Y.
Proof.
  unfold loadtxt, fs_read. destruct (fs name) as [content|]; [|discriminate].
  simpl. intros HY. now exists content.
Qed.

Lemma ms_cell_keeps_sizes stdout fs :
  ms_cell stdout fs sizes_file = fs sizes_file.
Proof. reflexivity. Qed.

Section LabelFacts.
Context `{PyFloat} `{MsTools} `{Allel}.

Lemma cell_ok_parts totalPhysLen fs ns :
  snd (assembler_cell totalPhysLen fs ns) = Ok tt ->
  exists hs ps Y,
    msOutToHaplotypeArrayIn fs msOut_file totalPhysLen = Ok (hs, ps) /\
    loadtxt fs sizes_file = Ok Y /\
    ns_Y (fst (assembler_cell totalPhysLen fs ns)) = Some Y.
Proof.
  rewrite assembler_cell_outcome. unfold cell_outcome.
  destruct (msOutToHaplotypeArrayIn fs msOut_file totalPhysLen)
    as [[hs ps]|e]; [|discriminate].
  destruct (collect_rows (feature_vector hs ps) (seq 0 (length hs)))
    as [rows [[]|e]]; [|discriminate].
  destruct (loadtxt fs sizes_file) as [Y|e]; [|discriminate].
  intros _. now exists hs, ps, Y.
Qed.

Lemma labels_follow_lines totalPhysLen fs ns content :
  fs sizes_file = Some content ->
  Forall (fun l => nonblank l = true) (splitlines content) ->
  snd (assembler_cell totalPhysLen fs ns) = Ok tt ->
  exists Y,
    ns_Y (fst (assembler_cell totalPhysLen fs ns)) = Some Y /\
    length Y = length (splitlines content) /\
    forall i line, nth_error (splitlines content) i = Some line ->
      exists v, parse_float line = Some v /\ nth_error Y i = Some v.
Proof.
  intros Hc Hnb Hok.
  destruct (cell_ok_parts _ _ _ Hok) as (hs & ps & Y & _ & Hload & HY).
  destruct (loadtxt_ok _ _ _ Hload) as (content' & Hc' & Hmap).
  assert (content' = content) by congruence. subst content'.
  assert (Hf : filter nonblank (splitlines content) = splitlines content).
  { apply forallb_filter_id. apply forallb_forall.
    rewrite Forall_forall in Hnb. exact Hnb. }
  rewrite Hf in Hmap.
  exists Y. split; [exact HY|]. split; [now apply rmap_length in Hmap|].
  intros i line Hi.
  destruct (rmap_nth _ _ _ _ _ Hmap Hi) as (v & Hv & HYi).
  exists v. split; [|exact HYi].
  destruct (parse_float line); [now inversion Hv | discriminate].
Qed.

End LabelFacts.


(** ** Running the cell again *)

Section Determinism.
Context `{MsTools} `{Allel}.
Hypothesis parser_reads_its_file :
  forall fs1 fs2 name totalPhysLen,
    fs1 name = fs2 name ->
    msOutToHaplotypeArrayIn fs1 name totalPhysLen
    = msOutToHaplotypeArrayIn fs2 name totalPhysLen.

(** C6: the feature matrix is a function of the text of the simulator
    output and of the total length.  Running the cell a second time
    changes nothing, and two runs on the same stream leave the same [X],
    whatever was bound before and whatever else the files hold. *)
Theorem reparsing_gives_the_same_matrix totalPhysLen fs1 fs2 ns1 ns2 :
  fs1 msOut_file = fs2 msOut_file ->
  assembler_cell totalPhysLen fs1
    (fst (assembler_cell totalPhysLen fs1 ns1))
  = assembler_cell totalPhysLen fs1 ns1 /\
  (forall hs ps,
     msOutToHaplotypeArrayIn fs1 msOut_file totalPhysLen = Ok (hs, ps) ->
     ns_X (fst (assembler_cell totalPhysLen fs1 ns1))
     = ns_X (fst (assembler_cell totalPhysLen fs2 ns2))).
Proof.
  intros Hfs. rewrite !assembler_cell_outcome. split.
  - unfold cell_outcome.
    destruct (msOutToHaplotypeArrayIn fs1 msOut_file totalPhysLen)
      as [[hs ps]|e]; [|reflexivity].
    destruct (collect_rows (feature_vector hs ps) (seq 0 (length hs)))
      as [rows [[]|e]]; [|reflexivity].
    destruct (loadtxt fs1 sizes_file); reflexivity.
  - intros hs ps Hparse. unfold cell_outcome.
    rewrite <- (parser_reads_its_file fs1 fs2 msOut_file totalPhysLen Hfs).
    rewrite Hparse.
    destruct (collect_rows (feature_vector hs ps) (seq 0 (length hs)))
      as [rows [[]|e]]; [|reflexivity].
    destruct (loadtxt fs1 sizes_file), (loadtxt fs2 sizes_file); reflexivity.
Qed.
End Determinism.

(** ** The parser *)

Lemma spec_parser_reads_its_file fs1 fs2 name totalPhysLen :
  fs1 name = fs2 name ->
  @msOutToHaplotypeArrayIn spec_msTools fs1 name totalPhysLen
  = @msOutToHaplotypeArrayIn spec_msTools fs2 name totalPhysLen.
Proof.
  intros Hfs. simpl. unfold MsToolsSpec.msOutToHaplotypeArrayIn_spec, fs_read.
  now rewrite Hfs.
Qed.

Lemma reparsing_gives_the_same_matrix_witness :
  let fs1 := Standin.simulated Standin.two_labels in
  let fs2 := Standin.simulated Standin.no_files in
  let ns2 := Standin.stale in
  @assembler_cell spec_msTools Standin.counting 10000 fs1
    (fst (@assembler_cell spec_msTools Standin.counting 10000 fs1
            Standin.unbound))
  = @assembler_cell spec_msTools Standin.counting 10000 fs1 Standin.unbound /\
  (forall hs ps,
     @msOutToHaplotypeArrayIn spec_msTools fs1 msOut_file 10000 = Ok (hs, ps) ->
     ns_X (fst (@assembler_cell spec_msTools Standin.counting 10000 fs1
                  Standin.unbound))
     = ns_X (fst (@assembler_cell spec_msTools Standin.counting 10000 fs2
                    ns2))).
Proof.
  intros fs1 fs2 ns2.
  apply (@reparsing_gives_the_same_matrix spec_msTools Standin.counting
           spec_parser_reads_its_file 10000 fs1 fs2 Standin.unbound ns2).
  reflexivity.
Defined.

Module MsToolsFacts.
Import MsToolsSpec.

Lemma parse_allele_ok a z :
  parse_allele a = Ok z -> a = "0"%char \/ a = "1"%char.
Proof.
  unfold parse_allele.
  destruct (Ascii.eqb a "0") eqn:E0; [apply Ascii.eqb_eq in E0; auto|].
  destruct (Ascii.eqb a "1") eqn:E1; [apply Ascii.eqb_eq in E1; auto|].
  discriminate.
Qed.

Lemma parse_sample_bad k r a :
  In a r -> a <> "0"%char -> a <> "1"%char -> is_error (parse_sample k r).
Proof.
  intros Hin H0 H1. unfold parse_sample.
  destruct (Nat.eqb (length r) k); [|exact I].
  apply (rmap_error_in parse_allele r a Hin).
  destruct (parse_allele a) as [z|] eqn:E; [|exact I].
  apply parse_allele_ok in E. tauto.
Qed.

Ltac step_error :=
  cbn [rbind];
  match goal with
  | |- is_error (Error _) => exact I
  | |- is_error (rbind ?r _) => destruct r eqn:?
  | |- is_error (if ?b then _ else _) => destruct b eqn:?
  end;
  cbn [rbind].

Lemma parse_sample_wrong_length k r :
  length r <> k -> is_error (parse_sample k r).
Proof.
  intros Hl. unfold parse_sample. apply Nat.eqb_neq in Hl. now rewrite Hl.
Qed.

Lemma rows_error_step {B} (f : text -> result (list Z)) rows r
    (k : list (list Z) -> result B) :
  In r rows -> is_error (f r) -> is_error (rbind (rmap f rows) k).
Proof.
  intros Hr He. pose proof (rmap_error_in f rows r Hr He) as Hm.
  destruct (rmap f rows); [contradiction | exact I].
Qed.

Lemma parse_block_malformed numSamples totalPhysLen b :
  malformed numSamples b -> is_error (parse_block numSamples totalPhysLen b).
Proof.
  intros Hm. unfold parse_block.
  destruct Hm as [c rest Hc | c p rows w Hw Hp | c k p rows Hc Hk
                  | c p rows Hn | c k Hc Hk
                  | c p rows r a Hr Ha H0 H1 | c k p rows r Hc Hr Hl].
  - now rewrite Hc.
  - step_error; try exact I.
    assert (He : is_error (parse_positions p)).
    { unfold parse_positions.
      apply (rmap_error_in _ (words p) w Hw). now rewrite Hp. }
    destruct (parse_positions p); [contradiction | exact I].
  - rewrite Hc. cbn [of_option].
    step_error; try exact I.
    match goal with
    | Hps : parse_positions p = Ok ?ps |- _ =>
        apply rmap_length in Hps; rewrite Hps
    end.
    apply Nat.eqb_neq in Hk. now rewrite Hk.
  - do 4 (step_error; try exact I).
    apply Nat.eqb_neq in Hn.
    match goal with
    | Hb : negb _ = false |- _ => rewrite Hn in Hb; discriminate
    end.
  - rewrite Hc. cbn [of_option rbind].
    apply N.eqb_neq in Hk. now rewrite Hk.
  - do 4 (step_error; try exact I).
    apply (rows_error_step _ rows r); [exact Hr|].
    now apply (parse_sample_bad _ r a).
  - rewrite Hc. cbn [of_option].
    do 3 (step_error; try exact I).
    apply (rows_error_step _ rows r); [exact Hr|].
    now apply parse_sample_wrong_length.
Qed.

Lemma parse_stream_bad_block s totalPhysLen b :
  In b (stream_blocks s) ->
  (forall numSamples,
     rbind (stream_header s) header_samples = Ok numSamples ->
     is_error (parse_block numSamples totalPhysLen b)) ->
  is_error (parse_stream s totalPhysLen).
Proof.
  intros Hin Hbad. unfold parse_stream.
  destruct (stream_header s) as [header|]; [|exact I]. cbn [rbind] in *.
  destruct (header_samples header) as [n|]; [|exact I]. cbn [rbind].
  pose proof (rmap_error_in (parse_block n totalPhysLen) _ b Hin
                (Hbad n eq_refl)) as He.
  destruct (rmap (parse_block n totalPhysLen) (stream_blocks s));
    [contradiction | exact I].
Qed.

Lemma parse_stream_counts s totalPhysLen hs ps :
  parse_stream s totalPhysLen = Ok (hs, ps) ->
  length hs = length (stream_blocks s) /\ length ps = length (stream_blocks s).
Proof.
  unfold parse_stream.
  destruct (stream_header s) as [header|]; [|discriminate]. cbn [rbind].
  destruct (header_samples header) as [n|]; [|discriminate]. cbn [rbind].
  destruct (rmap (parse_block n totalPhysLen) (stream_blocks s))
    as [reps|] eqn:E; [|discriminate].
  cbn [rbind]. intros Hr. inversion Hr; subst.
  apply rmap_length in E. now rewrite !length_map.
Qed.







Lemma is_error_inv {A} (r : result A) : is_error r -> exists e, r = Error e.
Proof. destruct r as [a|e]; [contradiction | now exists e]. Qed.

(** The cell on a file system whose simulator output the parser rejects:
    the exception of the parser ends the cell, nothing is bound. *)
Lemma cell_parser_error `{Allel} totalPhysLen fs ns e :
  msOutToHaplotypeArrayIn_spec fs msOut_file totalPhysLen = Error e ->
  @assembler_cell spec_msTools _ totalPhysLen fs ns = (ns, Error e).
Proof.
  intros He. rewrite assembler_cell_outcome. unfold cell_outcome.
  cbn [msOutToHaplotypeArrayIn spec_msTools]. now rewrite He.
Qed.
End MsToolsFacts.

(** C7: a stream with a malformed block (an unparsable line, or a number of
    sample lines other than the sample count of the run) makes the parser
    raise and the cell end with that exception; and when the parser
    returns, it returns one replicate for every block of the stream, so
    that no block was skipped. *)
Theorem malformed_block_fails_the_run `{Allel} fs s totalPhysLen ns :
  fs msOut_file = Some s ->
  (forall numSamples b,
     rbind (MsToolsSpec.stream_header s) MsToolsSpec.header_samples
     = Ok numSamples ->
     In b (MsToolsSpec.stream_blocks s) ->
     MsToolsSpec.malformed numSamples b ->
     exists e,
       MsToolsSpec.msOutToHaplotypeArrayIn_spec fs msOut_file totalPhysLen
       = Error e /\
       @assembler_cell spec_msTools _ totalPhysLen fs ns = (ns, Error e)) /\
  (forall hs ps,
     MsToolsSpec.msOutToHaplotypeArrayIn_spec fs msOut_file totalPhysLen
     = Ok (hs, ps) ->
     length hs = length (MsToolsSpec.stream_blocks s) /\
     length ps = length (MsToolsSpec.stream_blocks s)).
Proof.
  intros Hfs. split.
  - intros n b Hn Hin Hbad.
    assert (He : is_error (MsToolsSpec.msOutToHaplotypeArrayIn_spec
                             fs msOut_file totalPhysLen)).
    { unfold MsToolsSpec.msOutToHaplotypeArrayIn_spec, fs_read.
      rewrite Hfs. cbn [of_option rbind].
      apply (MsToolsFacts.parse_stream_bad_block s totalPhysLen b Hin).
      intros n' Hn'. assert (n' = n) by congruence. subst n'.
      now apply MsToolsFacts.parse_block_malformed. }
    apply MsToolsFacts.is_error_inv in He. destruct He as [e He].
    exists e. split; [exact He|]. now apply MsToolsFacts.cell_parser_error.
  - intros hs ps Hok.
    unfold MsToolsSpec.msOutToHaplotypeArrayIn_spec, fs_read in Hok.
    rewrite Hfs in Hok. cbn [of_option rbind] in Hok.
    now apply MsToolsFacts.parse_stream_counts in Hok.
Qed.

Lemma malformed_block_fails_the_run_witness :
  (exists e,
     MsToolsSpec.msOutToHaplotypeArrayIn_spec
       (ms_cell (file_of_lines Standin.short_stream_lines) Standin.two_labels)
       msOut_file 10000 = Error e /\
     @assembler_cell spec_msTools Standin.counting 10000
       (ms_cell (file_of_lines Standin.short_stream_lines) Standin.two_labels)
       Standin.unbound
     = (Standin.unbound, Error e)) /\
  (length (fst Standin.two_replicates) = 2%nat /\
   length (snd Standin.two_replicates) = 2%nat).
Proof.
  split.
  - apply (proj1 (@malformed_block_fails_the_run Standin.counting
                    (ms_cell (file_of_lines Standin.short_stream_lines)
                       Standin.two_labels)
                    (file_of_lines Standin.short_stream_lines) 10000
                    Standin.unbound eq_refl)
             4%nat
             [txt "4"; txt "0.2 0.3 0.7 0.8"; txt "1001"; txt "1100";
              txt "0010"]).
    + reflexivity.
    + vm_compute. right. left. reflexivity.
    + apply MsToolsSpec.wrong_sample_count. discriminate.
  - apply (proj2 (@malformed_block_fails_the_run Standin.counting
                    (Standin.simulated Standin.two_labels)
                    (file_of_lines Standin.stream_lines) 10000
                    Standin.unbound eq_refl)
             (fst Standin.two_replicates) (snd Standin.two_replicates)).
    vm_compute. reflexivity.
Defined.




(** ** Decimal lines read as doubles *)

Lemma two_neq_0 : ~ 2 == 0.
Proof. discriminate. Qed.

Lemma pow2_pos k : 0 < 2 ^ k.
Proof. apply Qpower_0_lt. reflexivity. Qed.

Lemma pow2_of_nonneg k : (0 <= k)%Z -> 2 ^ k == inject_Z (2 ^ k).
Proof. intros Hk. now rewrite Zpower_Qpower. Qed.

Lemma pow2_of_neg k :
  (k < 0)%Z -> 2 ^ k == 1 # Z.to_pos (2 ^ (- k)).
Proof.
  intros Hk. replace k with (- - k)%Z by lia.
  rewrite Qpower_opp, pow2_of_nonneg by lia. rewrite Z.opp_involutive.
  assert (Hp : (0 < 2 ^ (- k))%Z) by (apply Z.pow_pos_nonneg; lia).
  destruct (2 ^ (- k))%Z as [|p|p]; try lia. reflexivity.
Qed.

Lemma pow2_succ k : 2 ^ (k + 1) == 2 * 2 ^ k.
Proof. rewrite Qpower_plus by exact two_neq_0. change (2 ^ 1) with 2. ring. Qed.

(** [x <= n/d] without the division. *)
Lemma Qle_over x n d : x * inject_Z (Zpos d) <= inject_Z n <-> x <= n # d.
Proof.
  destruct x as [xn xd]. unfold Qle, Qmult, inject_Z. cbn [Qnum Qden].
  rewrite !Pos2Z.inj_mul. split; intros; nia.
Qed.

Lemma Qlt_over x n d : inject_Z n < x * inject_Z (Zpos d) <-> n # d < x.
Proof.
  destruct x as [xn xd]. unfold Qlt, Qmult, inject_Z. cbn [Qnum Qden].
  rewrite !Pos2Z.inj_mul. split; intros; nia.
Qed.

Lemma pow2_le_spec k n d : pow2_le k n d = true <-> 2 ^ k <= Zpos n # d.
Proof.
  unfold pow2_le. destruct (Z.leb_spec 0 k) as [Hk|Hk].
  - rewrite pow2_of_nonneg by assumption. rewrite Z.leb_le.
    unfold Qle, inject_Z. cbn [Qnum Qden]. lia.
  - rewrite pow2_of_neg by assumption. rewrite Z.leb_le.
    assert (Hp : (0 < 2 ^ (- k))%Z) by (apply Z.pow_pos_nonneg; lia).
    unfold Qle. cbn [Qnum Qden]. rewrite Z2Pos.id by assumption. lia.
Qed.

Lemma log2_bounds (p : positive) :
  2 ^ Z.log2 (Zpos p) <= inject_Z (Zpos p) /\
  inject_Z (Zpos p) < 2 ^ (Z.log2 (Zpos p) + 1).
Proof.
  pose proof (Z.log2_nonneg (Zpos p)) as Hnn.
  destruct (Z.log2_spec (Zpos p) ltac:(lia)) as [Hlo Hhi].
  rewrite !pow2_of_nonneg by lia. split.
  - now rewrite <- Zle_Qle.
  - rewrite <- Zlt_Qlt. now rewrite <- Z.add_1_r in Hhi.
Qed.

Lemma floor_log2_spec n d :
  2 ^ floor_log2 n d <= Zpos n # d /\ Zpos n # d < 2 ^ (floor_log2 n d + 1).
Proof.
  destruct (log2_bounds n) as [Hna Hnb]. destruct (log2_bounds d) as [Hda Hdb].
  set (a := Z.log2 (Zpos n)) in *. set (b := Z.log2 (Zpos d)) in *.
  assert (Hlow : 2 ^ (a - b - 1) <= Zpos n # d).
  { apply Qle_over. eapply Qle_trans; [|exact Hna].
    replace a with ((a - b - 1) + (b + 1))%Z at 2 by lia.
    rewrite (Qpower_plus 2 (a - b - 1) (b + 1)) by exact two_neq_0.
    apply Qmult_le_l; [apply pow2_pos|]. now apply Qlt_le_weak. }
  assert (Hhigh : Zpos n # d < 2 ^ (a - b + 1)).
  { apply Qlt_over. eapply Qlt_le_trans; [exact Hnb|].
    replace (a + 1)%Z with ((a - b + 1) + b)%Z by lia.
    rewrite (Qpower_plus 2 (a - b + 1) b) by exact two_neq_0.
    apply Qmult_le_l; [apply pow2_pos|]. exact Hda. }
  unfold floor_log2. fold a b.
  destruct (pow2_le (a - b) n d) eqn:E.
  - split; [now apply pow2_le_spec | exact Hhigh].
  - split; [exact Hlow|].
    replace (a - b - 1 + 1)%Z with (a - b)%Z by lia.
    apply Qnot_le_lt. intros Hle. apply pow2_le_spec in Hle. congruence.
Qed.

Lemma nearest_double_pos_near n d :
  2 * Qabs (nearest_double_pos n d - (Zpos n # d)) <= 2 ^ double_exponent n d.
Proof.
  unfold nearest_double_pos.
  set (e := double_exponent n d).
  destruct (Z.leb_spec 0 e) as [He|He].
  - rewrite pow2_of_nonneg by assumption.
    assert (Hp : (0 < 2 ^ e)%Z) by (apply Z.pow_pos_nonneg; lia).
    pose proof (round_half_even_near (Npos n) (d * Z.to_pos (2 ^ e))) as Hn.
    set (r := round_half_even (Npos n) (d * Z.to_pos (2 ^ e))) in *.
    rewrite Pos2Z.inj_mul, Z2Pos.id in Hn by assumption.
    unfold Qle, Qabs, Qminus, Qplus, Qopp, Qmult, inject_Z. cbn [Qnum Qden].
    cbn [Z.of_N] in Hn. nia.
  - rewrite pow2_of_neg by assumption.
    assert (Hp : (0 < 2 ^ (- e))%Z) by (apply Z.pow_pos_nonneg; lia).
    pose proof (round_half_even_near (Npos n * Npos (Z.to_pos (2 ^ (- e)))) d)
      as Hn.
    set (r := round_half_even (Npos n * Npos (Z.to_pos (2 ^ (- e)))) d) in *.
    rewrite N2Z.inj_mul in Hn. cbn [Z.of_N] in Hn.
    set (P := Z.to_pos (2 ^ (- e))) in *.
    unfold Qle, Qabs, Qminus, Qplus, Qopp, Qmult. cbn [Qnum Qden].
    rewrite !Pos2Z.inj_mul. nia.
Qed.

Lemma floor_log2_normal n d :
  2 ^ (-1022) <= Zpos n # d -> (-1022 <= floor_log2 n d)%Z.
Proof.
  intros Hv. destruct (floor_log2_spec n d) as [_ Hhi].
  assert (Hlt : 2 ^ (-1022) < 2 ^ (floor_log2 n d + 1)).
  { eapply Qle_lt_trans; [exact Hv | exact Hhi]. }
  apply Qpower_lt_compat_l_inv in Hlt; [lia | reflexivity].
Qed.

Lemma nearest_double_pos_relative n d :
  2 ^ (-1022) <= Zpos n # d ->
  Qabs (nearest_double_pos n d - (Zpos n # d)) <= (Zpos n # d) * 2 ^ (-53).
Proof.
  intros Hv. pose proof (floor_log2_normal n d Hv) as Hf.
  pose proof (nearest_double_pos_near n d) as Hnear.
  destruct (floor_log2_spec n d) as [Hlo _].
  unfold double_exponent in Hnear.
  rewrite Z.max_l in Hnear by lia.
  replace (floor_log2 n d - 52)%Z with (floor_log2 n d + (-53) + 1)%Z in Hnear
    by lia.
  rewrite pow2_succ, (Qpower_plus 2 _ (-53)) in Hnear by exact two_neq_0.
  set (err := Qabs (nearest_double_pos n d - (Zpos n # d))) in *.
  assert (Herr : err <= 2 ^ floor_log2 n d * 2 ^ (-53)).
  { apply (Qmult_le_l _ _ 2); [reflexivity|]. exact Hnear. }
  eapply Qle_trans; [exact Herr|].
  apply Qmult_le_compat_r; [exact Hlo|]. apply Qlt_le_weak, pow2_pos.
Qed.

Lemma Qabs_normal_nonzero v : 2 ^ (-1022) <= Qabs v -> Qnum v <> 0%Z.
Proof.
  intros Hv E. destruct v as [n d]. cbn in E. subst n.
  pose proof (pow2_pos (-1022)) as Hp.
  apply (Qlt_irrefl 0). eapply Qlt_le_trans; [exact Hp|].
  eapply Qle_trans; [exact Hv|]. discriminate.
Qed.

(** In the range of the normal numbers [as_double] is within half a unit
    in the last place: a relative error of at most [2^-53]. *)
Lemma as_double_near v :
  2 ^ (-1022) <= Qabs v ->
  Qabs (as_double v - v) <= Qabs v * 2 ^ (-53).
Proof.
  intros Hv. pose proof (Qabs_normal_nonzero v Hv) as Hnz.
  destruct v as [[|n|n] d]; cbn [Qnum] in Hnz; [contradiction| |];
    unfold as_double; cbn [Qnum Qden]; rewrite Qred_correct.
  - change (Qabs (Zpos n # d)) with (Zpos n # d) in *.
    now apply nearest_double_pos_relative.
  - change (Qabs (Zneg n # d)) with (Zpos n # d) in *.
    setoid_replace (- nearest_double_pos n d - (Zneg n # d))
      with (- (nearest_double_pos n d - (Zpos n # d))).
    + rewrite Qabs_opp. now apply nearest_double_pos_relative.
    + change (Zneg n # d) with (- (Zpos n # d)). ring.
Qed.

(** The result is a binary64 number: a significand of at most 53 bits (or
    [2^53], the next power of two) at an exponent of at least -1074. *)
Lemma nearest_double_pos_shape n d :
  exists m : Z,
    nearest_double_pos n d == inject_Z m * 2 ^ double_exponent n d /\
    (0 <= m <= 2 ^ 53)%Z.
Proof.
  pose proof (nearest_double_pos_near n d) as Hnear.
  destruct (floor_log2_spec n d) as [_ Hhi].
  assert (Hrep : exists m : Z,
             nearest_double_pos n d == inject_Z m * 2 ^ double_exponent n d /\
             (0 <= m)%Z).
  { unfold nearest_double_pos.
    set (e := double_exponent n d).
    destruct (Z.leb_spec 0 e) as [He|He].
    - exists (Z.of_N (round_half_even (Npos n) (d * Z.to_pos (2 ^ e)))).
      split; [|lia]. rewrite pow2_of_nonneg by assumption.
      unfold Qeq, Qmult, inject_Z. cbn [Qnum Qden]. lia.
    - exists (Z.of_N (round_half_even
                        (Npos n * Npos (Z.to_pos (2 ^ (- e)))) d)).
      split; [|lia]. rewrite pow2_of_neg by assumption.
      unfold Qeq, Qmult, inject_Z. cbn [Qnum Qden]. lia. }
  destruct Hrep as (m & Hm & Hm0). exists m. split; [exact Hm|].
  split; [exact Hm0|].
  rewrite Hm in Hnear.
  assert (Hexp : 2 ^ (floor_log2 n d + 1)
                 <= 2 ^ double_exponent n d * inject_Z (2 ^ 53)).
  { rewrite <- pow2_of_nonneg by lia.
    rewrite <- Qpower_plus by exact two_neq_0.
    apply Qpower_le_compat_l; [unfold double_exponent; lia | discriminate]. }
  set (u := 2 ^ double_exponent n d) in *.
  assert (Hu : 0 < u) by apply pow2_pos.
  apply Qmult_le_l with (z := 1 # 2) in Hnear; [|reflexivity].
  setoid_replace ((1 # 2) * (2 * Qabs (inject_Z m * u - (Zpos n # d))))
    with (Qabs (inject_Z m * u - (Zpos n # d))) in Hnear by ring.
  apply Qabs_diff_Qle_condition in Hnear. destruct Hnear as [Hlow _].
  assert (Hlt : u * (inject_Z m - (1 # 2)) < u * inject_Z (2 ^ 53)).
  { eapply Qle_lt_trans; [|eapply Qlt_le_trans; [exact Hhi | exact Hexp]].
    setoid_replace (u * (inject_Z m - (1 # 2)))
      with (inject_Z m * u - (1 # 2) * u) by ring.
    exact Hlow. }
  apply Qmult_lt_l in Hlt; [|exact Hu].
  revert Hlt. generalize (2 ^ 53)%Z. intros z.
  unfold Qlt, Qminus, Qplus, Qopp, inject_Z. cbn [Qnum Qden]. lia.
Qed.

Lemma as_double_shape v :
  0 < v ->
  exists (m e : Z),
    as_double v == inject_Z m * 2 ^ e /\
    (0 <= m <= 2 ^ 53)%Z /\ (-1074 <= e)%Z.
Proof.
  intros Hv. destruct v as [[|n|n] d]; try discriminate.
  destruct (nearest_double_pos_shape n d) as (m & Hm & Hrange).
  exists m, (double_exponent n d). unfold as_double. cbn [Qnum Qden].
  rewrite Qred_correct. split; [exact Hm|]. split; [exact Hrange|].
  unfold double_exponent. lia.
Qed.

Lemma rmap_option_map {A B C} (p : A -> option B) (f : B -> C) e ls :
  rmap (fun l => of_option e (option_map f (p l))) ls
  = rbind (rmap (fun l => of_option e (p l)) ls) (fun Y => Ok (map f Y)).
Proof.
  induction ls as [|l ls IH]; simpl; [reflexivity|].
  destruct (p l) as [b|]; simpl; [|reflexivity].
  rewrite IH. destruct (rmap (fun l0 => of_option e (p l0)) ls); reflexivity.
Qed.

(** The floats of the array are the doubles nearest to the decimal values
    of the lines. *)
Lemma loadtxt_floats_of_loadtxt fs name :
  loadtxt_floats fs name
  = rbind (loadtxt fs name) (fun Y => Ok (map as_double Y)).
Proof.
  unfold loadtxt_floats, loadtxt.
  destruct (fs_read fs name) as [s|]; [|reflexivity]. cbn [rbind].
  apply (rmap_option_map parse_float as_double).
Qed.

Lemma float_of_format_f x :
  float_of_text (format_f x) = Some (as_double (round6 x)).
Proof. unfold float_of_text. now rewrite parse_format_f. Qed.

(** The label of a value of the sampler's range: the double next to its
    six-decimal rounding. *)
Lemma label_near x :
  1 # 10 <= x -> x <= 10 # 1 ->
  Qabs (as_double (round6 x) - round6 x) <= round6 x * 2 ^ (-53) /\
  Qabs (as_double (round6 x) - x)
  <= (1 # 2000000) + (1 # 562949953421312).
Proof.
  intros Hlo Hhi. destruct (round6_range x Hlo Hhi) as [Hrlo Hrhi].
  assert (Hpos : 0 <= round6 x).
  { eapply Qle_trans; [|exact Hrlo]. discriminate. }
  assert (Hrel : Qabs (as_double (round6 x) - round6 x)
                 <= round6 x * 2 ^ (-53)).
  { rewrite <- (Qabs_pos (round6 x)) at 3 by exact Hpos.
    apply as_double_near. rewrite Qabs_pos by exact Hpos.
    eapply Qle_trans; [|exact Hrlo].
    apply Qlt_le_weak. eapply Qlt_le_trans.
    - apply (Qpower_lt_compat_l 2 (-1022) (-4)); [lia | reflexivity].
    - discriminate. }
  split; [exact Hrel|].
  setoid_replace (as_double (round6 x) - x)
    with ((round6 x - x) + (as_double (round6 x) - round6 x)) by ring.
  eapply Qle_trans; [apply Qabs_triangle|].
  apply Qplus_le_compat; [apply round6_near|].
  eapply Qle_trans; [exact Hrel|].
  eapply Qle_trans.
  - apply Qmult_le_compat_r; [exact Hrhi|]. apply Qlt_le_weak, pow2_pos.
  - discriminate.
Qed.

Section FloatLabels.
Context `{PyFloat}.

Lemma loadtxt_floats_sampled n fs g fs' :
  fs' sizes_file = fst (param_sampler n fs g) sizes_file ->
  loadtxt_floats fs' sizes_file
  = Ok (map (fun x => as_double (round6 x)) (popSizes n g)).
Proof.
  intros Hfs. unfold loadtxt_floats, fs_read.
  rewrite Hfs, param_sampler_file. simpl.
  rewrite sampler_lines, filter_nonblank_format.
  rewrite (rmap_all_ok _ (fun l => match float_of_text l with
                                   | Some v => v
                                   | None => 0
                                   end)).
  - rewrite map_map. f_equal. apply map_ext. intros x.
    now rewrite float_of_format_f.
  - intros l Hl. apply in_map_iff in Hl. destruct Hl as (x & <- & _).
    now rewrite float_of_format_f.
Qed.
End FloatLabels.

(** C10: ["%f"] writes a sign, the digits of the integer part, a point and
    exactly six digits.  The decimal value of such a line is the value
    rounded to six decimal places, at most half a millionth away from it.
    [np.loadtxt] turns the decimal value of every line into the nearest
    double, so the label that the sampler's file yields for each replicate
    is the double nearest to the rounded value: for a value of the
    sampler's range, a binary64 number within [2^-53] of the rounded
    value, relatively, and so within half a millionth and [2^-49] of the
    sampled value.  A sampled value can differ from its label, and two
    different sampled values can have the same line and the same label. *)
Theorem labels_are_rounded_to_six_decimals `{PyFloat} :
  (forall x, exists sign ip fp,
      format_f x = sign ++ ip ++ dot :: fp /\
      (sign = [] \/ sign = [minus]) /\
      ip <> [] /\ Forall is_digit ip /\
      Forall is_digit fp /\ length fp = 6%nat) /\
  (forall x,
      parse_float (format_f x) = Some (round6 x) /\
      Qabs (round6 x - x) <= 1 # 2000000 /\
      float_of_text (format_f x) = Some (as_double (round6 x))) /\
  (forall fs name,
      loadtxt_floats fs name
      = rbind (loadtxt fs name) (fun Y => Ok (map as_double Y))) /\
  (forall n fs0 g stdout,
      let fs := ms_cell stdout (fst (param_sampler n fs0 g)) in
      fs sizes_file = Some (file_of_lines (map format_f (popSizes n g))) /\
      loadtxt_floats fs sizes_file
      = Ok (map (fun x => as_double (round6 x)) (popSizes n g))) /\
  (forall x,
      1 # 10 <= x -> x <= 10 ->
      (exists (m e : Z),
          as_double (round6 x) == inject_Z m * 2 ^ e /\
          (0 <= m <= 2 ^ 53)%Z /\ (-1074 <= e)%Z) /\
      Qabs (as_double (round6 x) - round6 x) <= round6 x * 2 ^ (-53) /\
      Qabs (as_double (round6 x) - x)
      <= (1 # 2000000) + (1 # 562949953421312)) /\
  float_of_text (txt "0.100000")
  = Some (3602879701896397 # 36028797018963968) /\
  (exists x, 1 # 10 <= x /\ x <= 10 /\ ~ as_double (round6 x) == x) /\
  (exists x y,
      1 # 10 <= x /\ x <= 10 /\ 1 # 10 <= y /\ y <= 10 /\
      ~ x == y /\ format_f x = format_f y /\
      as_double (round6 x) = as_double (round6 y)).
Proof.
  split; [exact format_f_shape|].
  split.
  { intros x. split; [apply parse_format_f|].
    split; [apply round6_near | apply float_of_format_f]. }
  split; [exact loadtxt_floats_of_loadtxt|].
  split.
  { intros n fs0 g stdout fs. split.
    - unfold fs. rewrite ms_cell_keeps_sizes. apply param_sampler_file.
    - apply (loadtxt_floats_sampled n fs0 g). reflexivity. }
  split.
  { intros x Hlo Hhi. split; [|now apply label_near].
    apply as_double_shape. destruct (round6_range x Hlo Hhi) as [Hrlo _].
    eapply Qlt_le_trans; [|exact Hrlo]. reflexivity. }
  split; [vm_compute; reflexivity|].
  split.
  - exists (1073741825 # 1073741824).
    split; [unfold Qle; simpl; lia|]. split; [unfold Qle; simpl; lia|].
    vm_compute. discriminate.
  - exists (1073741825 # 1073741824), 1.
    split; [unfold Qle; simpl; lia|]. split; [unfold Qle; simpl; lia|].
    split; [unfold Qle; simpl; lia|]. split; [unfold Qle; simpl; lia|].
    split; [vm_compute; discriminate|].
    split; vm_compute; reflexivity.
Qed.

(** A value of the range that lies halfway between two lines: its label is
    more than half a millionth away from it. *)
Lemma labels_are_rounded_to_six_decimals_witness :
  ((exists (m e : Z),
       as_double (round6 (13 # 128)) == inject_Z m * 2 ^ e /\
       (0 <= m <= 2 ^ 53)%Z /\ (-1074 <= e)%Z) /\
   Qabs (as_double (round6 (13 # 128)) - round6 (13 # 128))
   <= round6 (13 # 128) * 2 ^ (-53) /\
   Qabs (as_double (round6 (13 # 128)) - (13 # 128))
   <= (1 # 2000000) + (1 # 562949953421312)) /\
  format_f (13 # 128) = txt "0.101562" /\
  ~ Qabs (as_double (round6 (13 # 128)) - (13 # 128)) <= 1 # 2000000.
Proof.
  split; [|split].
  - apply (proj1 (proj2 (proj2 (proj2 (proj2
             (@labels_are_rounded_to_six_decimals Standin.lcg))))) (13 # 128)).
    + unfold Qle; simpl; lia.
    + unfold Qle; simpl; lia.
  - vm_compute. reflexivity.
  - vm_compute. intros Hle. apply Hle. reflexivity.
Defined.


(** * Further properties of the cells *)

(** ** Order of the labels *)

Lemma round_half_even_tie num den :
  (2 * Z.abs (Z.of_N (round_half_even num den) * Zpos den - Z.of_N num)
   = Zpos den)%Z ->
  N.even (round_half_even num den) = true.
Proof.
  destruct (round_half_even_cases num den) as (Hnum & Hr & _).
  unfold round_half_even.
  set (q := (num / Npos den)%N) in *. set (r := (num mod Npos den)%N) in *.
  destruct (N.compare_spec (2 * r) (Npos den)) as [E|E|E]; intros Ht.
  - destruct (N.even q) eqn:Eq; [exact Eq|].
    rewrite N.add_1_r, N.even_succ. rewrite <- N.negb_even, Eq. reflexivity.
  - exfalso. nia.
  - exfalso. nia.
Qed.

Lemma round_half_even_mono (A B : N) (b d : positive) :
  (A * Npos d <= B * Npos b)%N ->
  (round_half_even A b <= round_half_even B d)%N.
Proof.
  intros Hle.
  pose proof (round_half_even_near A b) as Ha.
  pose proof (round_half_even_near B d) as Hb.
  pose proof (round_half_even_tie A b) as Ta.
  pose proof (round_half_even_tie B d) as Tb.
  set (m := round_half_even A b) in *. set (m' := round_half_even B d) in *.
  destruct (N.le_gt_cases m m') as [Hm|Hm]; [exact Hm|exfalso].
  assert (Hle' : (Z.of_N A * Zpos d <= Z.of_N B * Zpos b)%Z) by lia.
  assert (Hm1 : (Z.of_N m' + 1 <= Z.of_N m)%Z) by lia.
  assert (H1 : (2 * Z.of_N m * Zpos b - Zpos b <= 2 * Z.of_N A)%Z) by lia.
  assert (H2 : (2 * Z.of_N B <= 2 * Z.of_N m' * Zpos d + Zpos d)%Z) by lia.
  assert (Hbd : (0 < Zpos b * Zpos d)%Z) by lia.
  assert (H3 : ((2 * Z.of_N m * Zpos b - Zpos b) * Zpos d
                <= (2 * Z.of_N m' * Zpos d + Zpos d) * Zpos b)%Z) by nia.
  assert (Heq : (Z.of_N m = Z.of_N m' + 1)%Z) by nia.
  assert (H1e : (2 * Z.of_N m * Zpos b - Zpos b = 2 * Z.of_N A)%Z) by nia.
  assert (H2e : (2 * Z.of_N B = 2 * Z.of_N m' * Zpos d + Zpos d)%Z) by nia.
  assert (Em : N.even m = true) by (apply Ta; lia).
  assert (Em' : N.even m' = true) by (apply Tb; lia).
  assert (Hs : m = N.succ m') by lia.
  rewrite Hs, N.even_succ, <- N.negb_even, Em' in Em. discriminate.
Qed.

Lemma round6_micro_mono x y :
  (0 <= Qnum x)%Z -> x <= y -> (round6_micro x <= round6_micro y)%N.
Proof.
  destruct x as [a b], y as [c d]. unfold Qle, round6_micro. cbn [Qnum Qden].
  intros Ha Hle. apply round_half_even_mono. nia.
Qed.

Lemma round6_micro_anti x y :
  (Qnum y < 0)%Z -> x <= y -> (round6_micro y <= round6_micro x)%N.
Proof.
  destruct x as [a b], y as [c d]. unfold Qle, round6_micro. cbn [Qnum Qden].
  intros Hc Hle. apply round_half_even_mono. nia.
Qed.

(** X1: the value written by ["%f"] and read back never inverts the order
    of two values: of two sampled values, the smaller one gets the smaller
    or the same label. *)
Theorem labels_keep_the_order x y :
  x <= y ->
  exists u v,
    parse_float (format_f x) = Some u /\ parse_float (format_f y) = Some v /\
    u <= v.
Proof.
  intros Hle. exists (round6 x), (round6 y).
  split; [apply parse_format_f|]. split; [apply parse_format_f|].
  unfold round6.
  destruct (Z.ltb_spec (Qnum x) 0) as [Hx|Hx];
    destruct (Z.ltb_spec (Qnum y) 0) as [Hy|Hy].
  - pose proof (round6_micro_anti x y Hy Hle).
    unfold Qle. cbn [Qnum Qden]. lia.
  - unfold Qle. cbn [Qnum Qden]. lia.
  - exfalso. destruct x as [a b], y as [c d]. unfold Qle in Hle.
    cbn [Qnum Qden] in *. nia.
  - pose proof (round6_micro_mono x y Hx Hle).
    unfold Qle. cbn [Qnum Qden]. lia.
Qed.

Lemma labels_keep_the_order_witness :
  exists u v,
    parse_float (format_f (1 # 3)) = Some u /\
    parse_float (format_f (1 # 2)) = Some v /\
    u <= v.
Proof.
  apply (labels_keep_the_order (1 # 3) (1 # 2)).
  unfold Qle. simpl. lia.
Defined.

(** ** Running the sampler again *)

Section SamplerRunFacts.
Context `{PyFloat}.

Lemma sampler_loop_rng n : forall g f,
  fst (sampler_loop n (g, f)) = rng_after n g.
Proof.
  induction n as [|n IH]; intros g f; simpl; [reflexivity|].
  destruct (random g) as [u g'] eqn:E. simpl. apply IH.
Qed.

Lemma rng_after_add n m : forall g,
  rng_after (n + m) g = rng_after m (rng_after n g).
Proof.
  induction n as [|n IH]; intros g; simpl; [reflexivity | apply IH].
Qed.

Lemma popSizes_app n m : forall g,
  popSizes (n + m) g = popSizes n g ++ popSizes m (rng_after n g).
Proof.
  induction n as [|n IH]; intros g; simpl; [reflexivity|].
  destruct (random g) as [u g'] eqn:E. simpl. now rewrite IH.
Qed.

Lemma param_sampler_rng n fs g : snd (param_sampler n fs g) = rng_after n g.
Proof.
  unfold param_sampler.
  rewrite (surjective_pairing (sampler_loop n (g, []))). cbn [snd].
  apply sampler_loop_rng.
Qed.

Lemma param_sampler_other n fs g name :
  String.eqb name sizes_file = false ->
  fst (param_sampler n fs g) name = fs name.
Proof.
  intros Hn. unfold param_sampler.
  rewrite (surjective_pairing (sampler_loop n (g, []))). cbn [fst].
  unfold fs_write. now rewrite Hn.
Qed.

(** X2: the sampler makes one draw per line and replaces the file.  When
    the cell is run for [n] values and then again for [m] values, the
    generator has made [n + m] draws, the file holds the [m] values that
    follow the first [n] in the sequence of the generator and nothing of
    the first run, and every other file is as it was. *)
Theorem sampler_run_again n m fs g :
  let first := param_sampler n fs g in
  let second := param_sampler m (fst first) (snd first) in
  snd first = rng_after n g /\
  snd second = rng_after (n + m) g /\
  popSizes (n + m) g = popSizes n g ++ popSizes m (rng_after n g) /\
  forall name,
    fst second name
    = if String.eqb name sizes_file
      then Some (file_of_lines (map format_f (popSizes m (rng_after n g))))
      else fs name.
Proof.
  intros first second. unfold second, first.
  rewrite !param_sampler_rng.
  split; [reflexivity|]. split; [symmetry; apply rng_after_add|].
  split; [apply popSizes_app|].
  intros name. destruct (String.eqb name sizes_file) eqn:E.
  - apply String.eqb_eq in E. subst name. apply param_sampler_file.
  - now rewrite !param_sampler_other.
Qed.
End SamplerRunFacts.

(** ** How the cell ends when a statement raises *)

Lemma rmap_total {A B} (f : A -> result B) l :
  (forall a, In a l -> exists b, f a = Ok b) -> exists bs, rmap f l = Ok bs.
Proof.
  induction l as [|a l IH]; simpl; intros Hf.
  - now exists [].
  - destruct (Hf a) as [b Hb]; [now left|]. rewrite Hb.
    destruct IH as [bs Hbs]; [intros; apply Hf; now right|].
    rewrite Hbs. now exists (b :: bs).
Qed.

Lemma seq_split_at j n :
  (j < n)%nat -> seq 0 n = seq 0 j ++ j :: seq (S j) (n - S j).
Proof.
  intros Hj. replace n with (j + S (n - S j))%nat at 1 by lia.
  rewrite seq_app. reflexivity.
Qed.

Section FailureFacts.
Context `{MsTools} `{Allel}.

Lemma collect_rows_all_ok f idx rows :
  rmap f idx = Ok rows -> collect_rows f idx = (rows, Ok tt).
Proof.
  revert rows; induction idx as [|i idx IH]; simpl; intros rows Hm.
  - now inversion Hm.
  - destruct (f i) as [row|]; [|discriminate].
    destruct (rmap f idx) as [rows'|]; [|discriminate].
    inversion Hm; subst. now rewrite (IH rows').
Qed.

Lemma collect_rows_fail f pre j post rows e :
  rmap f pre = Ok rows -> f j = Error e ->
  collect_rows f (pre ++ j :: post) = (rows, Error e).
Proof.
  revert rows; induction pre as [|i pre IH]; simpl; intros rows Hm Hj.
  - inversion Hm; subst. now rewrite Hj.
  - destruct (f i) as [row|]; [|discriminate].
    destruct (rmap f pre) as [rows'|]; [|discriminate].
    inversion Hm; subst. now rewrite (IH rows').
Qed.

(** The rows of the replicates below [j], when all of them can be
    computed. *)
Lemma rows_below hs ps j :
  (forall i, (i < j)%nat -> exists row, feature_vector hs ps i = Ok row) ->
  exists X,
    rmap (feature_vector hs ps) (seq 0 j) = Ok X /\
    length X = j /\
    forall i, (i < j)%nat ->
      exists row, nth_error X i = Some row /\ feature_vector hs ps i = Ok row.
Proof.
  intros Hall.
  destruct (rmap_total (feature_vector hs ps) (seq 0 j)) as [X HX].
  { intros i Hi. apply in_seq in Hi. apply Hall. lia. }
  exists X. split; [exact HX|].
  pose proof (rmap_length _ _ _ HX) as Hlen. rewrite length_seq in Hlen.
  split; [exact Hlen|].
  intros i Hi.
  assert (Hn : nth_error (seq 0 j) i = Some i).
  { rewrite (nth_error_nth' _ 0%nat) by (now rewrite length_seq).
    now rewrite seq_nth. }
  destruct (rmap_nth _ _ _ _ _ HX Hn) as (row & Hrow & Hnth).
  now exists row.
Qed.

Lemma cell_fails_at totalPhysLen fs ns hs ps j e :
  msOutToHaplotypeArrayIn fs msOut_file totalPhysLen = Ok (hs, ps) ->
  (j < length hs)%nat ->
  (forall i, (i < j)%nat -> exists row, feature_vector hs ps i = Ok row) ->
  feature_vector hs ps j = Error e ->
  exists X,
    assembler_cell totalPhysLen fs ns
    = ({| ns_X := Some X; ns_Y := ns_Y ns |}, Error e) /\
    length X = j /\
    forall i, (i < j)%nat ->
      exists row, nth_error X i = Some row /\ feature_vector hs ps i = Ok row.
Proof.
  intros Hparse Hj Hall Hfail.
  destruct (rows_below hs ps j Hall) as (X & HX & Hlen & Hrows).
  exists X. split; [|split; assumption].
  rewrite assembler_cell_outcome. unfold cell_outcome. rewrite Hparse.
  rewrite (seq_split_at j (length hs) Hj).
  now rewrite (collect_rows_fail _ _ _ _ X e HX Hfail).
Qed.

(** X3: when the feature vector of replicate [j] is the first one that
    raises, the cell ends with that exception; [X] is left holding the
    rows of the replicates before [j], the parameter file is not read and
    [Y] keeps the value it had before the cell. *)
Theorem first_failing_replicate_ends_the_cell totalPhysLen fs ns hs ps j e :
  msOutToHaplotypeArrayIn fs msOut_file totalPhysLen = Ok (hs, ps) ->
  (j < length hs)%nat ->
  (forall i, (i < j)%nat -> exists row, feature_vector hs ps i = Ok row) ->
  feature_vector hs ps j = Error e ->
  exists X,
    assembler_cell totalPhysLen fs ns
    = ({| ns_X := Some X; ns_Y := ns_Y ns |}, Error e) /\
    length X = j /\
    forall i, (i < j)%nat ->
      exists row, nth_error X i = Some row /\ feature_vector hs ps i = Ok row.
Proof. apply cell_fails_at. Qed.

(** X4: when every feature vector can be computed but the parameter file
    cannot be loaded (it is missing, or a line of it is not a number), the
    cell ends with the exception of [np.loadtxt]; [X] then holds a row for
    every replicate while [Y] keeps the value it had before the cell. *)
Theorem failed_label_load_leaves_old_labels totalPhysLen fs ns hs ps e :
  msOutToHaplotypeArrayIn fs msOut_file totalPhysLen = Ok (hs, ps) ->
  (forall i, (i < length hs)%nat ->
     exists row, feature_vector hs ps i = Ok row) ->
  loadtxt fs sizes_file = Error e ->
  exists X,
    assembler_cell totalPhysLen fs ns
    = ({| ns_X := Some X; ns_Y := ns_Y ns |}, Error e) /\
    length X = length hs /\
    forall i, (i < length hs)%nat ->
      exists row, nth_error X i = Some row /\ feature_vector hs ps i = Ok row.
Proof.
  intros Hparse Hall Hload.
  destruct (rows_below hs ps (length hs) Hall) as (X & HX & Hlen & Hrows).
  exists X. split; [|split; assumption].
  rewrite assembler_cell_outcome. unfold cell_outcome. rewrite Hparse.
  rewrite (collect_rows_all_ok _ _ X HX). now rewrite Hload.
Qed.

(** X5: [positionArrays[i]] is out of range when the parser has returned
    fewer position arrays than replicates.  The cell then ends with an
    [IndexError] at the first replicate without positions, after its
    haplotype, genotype and allele-count arrays were built, and [X] holds
    the rows of the replicates that have positions. *)
Theorem missing_positions_raise_IndexError totalPhysLen fs ns hs ps
    h haps genos ac :
  msOutToHaplotypeArrayIn fs msOut_file totalPhysLen = Ok (hs, ps) ->
  (length ps < length hs)%nat ->
  (forall i, (i < length ps)%nat ->
     exists row, feature_vector hs ps i = Ok row) ->
  nth_error hs (length ps) = Some h ->
  HaplotypeArray h = Ok haps ->
  to_genotypes haps 2 = Ok genos ->
  count_alleles genos = Ok ac ->
  exists X,
    assembler_cell totalPhysLen fs ns
    = ({| ns_X := Some X; ns_Y := ns_Y ns |}, Error IndexError) /\
    length X = length ps.
Proof.
  intros Hparse Hlt Hall Hh Hhaps Hgenos Hac.
  assert (Hfail : feature_vector hs ps (length ps) = Error IndexError).
  { unfold feature_vector, index. rewrite Hh. cbn [of_option rbind].
    rewrite Hhaps. cbn [rbind]. rewrite Hgenos. cbn [rbind].
    rewrite Hac. cbn [rbind].
    assert (Hnone : nth_error ps (length ps) = None)
      by (apply nth_error_None; lia).
    now rewrite Hnone. }
  destruct (cell_fails_at totalPhysLen fs ns hs ps (length ps) IndexError
              Hparse Hlt Hall Hfail) as (X & Hcell & Hlen & _).
  now exists X.
Qed.
End FailureFacts.

(** ** The progress reports *)

Lemma ceil_div_step n :
  ((S n + 999) / 1000
   = if Nat.eqb (n mod 1000) 0 then S ((n + 999) / 1000)
     else (n + 999) / 1000)%nat /\
  (Nat.eqb (n mod 1000) 0 = true -> n = (1000 * ((n + 999) / 1000))%nat).
Proof.
  pose proof (Nat.div_mod_eq n 1000) as Hn.
  pose proof (Nat.mod_upper_bound n 1000 ltac:(discriminate)) as Hr.
  set (a := (n / 1000)%nat) in *. set (r := (n mod 1000)%nat) in *.
  destruct (Nat.eqb_spec r 0) as [E|E].
  - assert (H1 : ((n + 999) / 1000 = a)%nat).
    { symmetry. apply (Nat.div_unique _ _ _ 999); lia. }
    assert (H2 : ((S n + 999) / 1000 = S a)%nat).
    { symmetry. apply (Nat.div_unique _ _ _ 0); lia. }
    rewrite H1, H2. split; [reflexivity | lia].
  - assert (H1 : ((n + 999) / 1000 = S a)%nat).
    { symmetry. apply (Nat.div_unique _ _ _ (r - 1)); lia. }
    assert (H2 : ((S n + 999) / 1000 = S a)%nat).
    { symmetry. apply (Nat.div_unique _ _ _ r); lia. }
    rewrite H1, H2. split; [reflexivity | discriminate].
Qed.

Lemma filter_reports_seq n :
  filter reports (seq 0 n)
  = map (fun q => (1000 * q)%nat) (seq 0 ((n + 999) / 1000)).
Proof.
  induction n as [|n IH]; [reflexivity|].
  rewrite seq_S, filter_app, IH. cbn [filter]. unfold reports.
  change (0 + n)%nat with n.
  destruct (ceil_div_step n) as [Hq Hn]. rewrite Hq.
  destruct (Nat.eqb (n mod 1000) 0).
  - rewrite seq_S, map_app. cbn [map]. do 2 f_equal.
    change (0 + (n + 999) / 1000)%nat with ((n + 999) / 1000)%nat.
    now apply Hn.
  - now rewrite app_nil_r.
Qed.

Lemma reported_below n q :
  (q < (n + 999) / 1000)%nat -> (1000 * q < n)%nat.
Proof.
  intros Hq.
  pose proof (Nat.div_mod_eq (n + 999) 1000) as Hn1.
  pose proof (Nat.mod_upper_bound (n + 999) 1000 ltac:(discriminate)) as Hr1.
  lia.
Qed.

Lemma ceil_div_bounds s :
  (1000 * ((s + 999) / 1000 - 1) <= s - 1)%nat /\
  (s <= 1000 * ((s + 999) / 1000))%nat.
Proof.
  pose proof (Nat.div_mod_eq (s + 999) 1000) as Hn1.
  pose proof (Nat.mod_upper_bound (s + 999) 1000 ltac:(discriminate)) as Hr1.
  lia.
Qed.

Lemma prefix_of_seq l : forall a n rest,
  seq a n = l ++ rest -> l = seq a (length l).
Proof.
  induction l as [|x l IH]; intros a n rest Hs; [reflexivity|].
  destruct n as [|n]; [discriminate|]. simpl in Hs. inversion Hs; subst.
  simpl. f_equal. now apply (IH _ n rest).
Qed.

Section OutputFacts.
Context `{MsTools} `{Allel}.

Lemma started_prefix f idx : exists rest, idx = started f idx ++ rest.
Proof.
  induction idx as [|i idx [rest IH]]; simpl.
  - now exists [].
  - destruct (f i).
    + exists rest. simpl. now f_equal.
    + now exists idx.
Qed.

Lemma started_length f idx :
  length (started f idx)
  = (length (fst (collect_rows f idx))
     + match snd (collect_rows f idx) with Ok _ => 0 | Error _ => 1 end)%nat.
Proof.
  induction idx as [|i idx IH]; simpl; [reflexivity|].
  destruct (f i); [|reflexivity].
  destruct (collect_rows f idx) as [rows r]. simpl in *. now rewrite IH.
Qed.

Lemma started_all f idx :
  snd (collect_rows f idx) = Ok tt -> started f idx = idx.
Proof.
  induction idx as [|i idx IH]; simpl; [reflexivity|].
  destruct (f i); [|discriminate].
  destruct (collect_rows f idx) as [rows r]. simpl in *.
  intros Hr. now rewrite IH.
Qed.

Lemma for_each_out_loop v hs ps idx : forall ns out X0,
  ns_X ns = Some X0 ->
  for_each_out idx (loop_body_out v hs ps) (ns, out)
  = (({| ns_X := Some (X0 ++ fst (collect_rows (feature_vector hs ps) idx));
         ns_Y := ns_Y ns |},
      out ++ concat (map (report v)
                       (filter reports (started (feature_vector hs ps) idx)))),
     snd (collect_rows (feature_vector hs ps) idx)).
Proof.
  induction idx as [|i idx IH]; intros ns out X0 HX.
  - simpl. unfold oret. rewrite !app_nil_r. destruct ns; simpl in *. now subst.
  - cbn [for_each_out collect_rows started].
    unfold obind at 1. unfold loop_body_out at 1. unfold obind at 1.
    assert (Hrep : (if reports i then stdout_write (report v i) else oret tt)
                     (ns, out)
                   = ((ns, out ++ concat (map (report v) (filter reports [i]))),
                      Ok tt)).
    { cbn [filter]. destruct (reports i); cbn [map concat].
      - unfold stdout_write. cbn [fst snd]. now rewrite app_nil_r.
      - unfold oret. now rewrite app_nil_r. }
    rewrite Hrep. unfold quiet at 1. cbn [fst snd].
    unfold loop_body, mbind at 1, lift at 1.
    destruct (feature_vector hs ps i) as [row|e].
    + unfold append_X, mbind, get_X, set_X. rewrite HX. cbn [of_option].
      rewrite (IH _ _ (X0 ++ [row])) by reflexivity. cbn [ns_Y].
      destruct (collect_rows (feature_vector hs ps) idx) as [rows r].
      cbn [fst snd]. rewrite <- !app_assoc. cbn [app filter].
      destruct (reports i); cbn [map concat app]; rewrite <- ?app_assoc;
        reflexivity.
    + cbn [fst snd]. rewrite app_nil_r. destruct ns; simpl in *. now subst.
Qed.
Lemma after_loop_run v (st : namespace * text) :
  after_loop v st = ((fst st, snd st ++ after_loop_text v), Ok tt).
Proof.
  destruct st as [ns out]. destruct v; unfold after_loop, after_loop_text.
  - unfold oret. cbn [fst snd]. now rewrite app_nil_r.
  - reflexivity.
Qed.

(** The standard output of the cell, and how far the loop got: [s] is the
    number of indices at which the body was entered, [done] tells whether
    the loop ran to its end. *)
Lemma cell_out_shape totalPhysLen fs ns :
  exists s (done : bool),
    (forall v out,
       assembler_cell_out v totalPhysLen fs (ns, out)
       = ((fst (assembler_cell totalPhysLen fs ns),
           out ++ progress_upto v s
               ++ (if done then after_loop_text v else [])),
          snd (assembler_cell totalPhysLen fs ns))) /\
    (forall hs ps,
       msOutToHaplotypeArrayIn fs msOut_file totalPhysLen = Ok (hs, ps) ->
       exists X,
         ns_X (fst (assembler_cell totalPhysLen fs ns)) = Some X /\
         (length X <= s <= length X + 1)%nat /\
         (s <= length hs)%nat /\
         (done = true -> s = length hs) /\
         (snd (assembler_cell totalPhysLen fs ns) = Ok tt -> done = true)).
Proof.
  rewrite assembler_cell_outcome. unfold cell_outcome, assembler_cell_out.
  destruct (msOutToHaplotypeArrayIn fs msOut_file totalPhysLen)
    as [[hs ps]|e] eqn:Hparse.
  - set (f := feature_vector hs ps).
    set (st := started f (seq 0 (length hs))).
    destruct (started_prefix f (seq 0 (length hs))) as [rest Hrest].
    fold st in Hrest.
    pose proof (prefix_of_seq _ _ _ _ Hrest) as Hst.
    pose proof (started_length f (seq 0 (length hs))) as Hlen. fold st in Hlen.
    pose proof (started_all f (seq 0 (length hs))) as Hall. fold st in Hall.
    pose proof (collect_rows_ok f (seq 0 (length hs))) as Hok.
    assert (Hs : (length st <= length hs)%nat).
    { apply (f_equal (@length nat)) in Hrest.
      rewrite length_seq, length_app in Hrest. lia. }
    exists (length st),
      (match snd (collect_rows f (seq 0 (length hs))) with
       | Ok _ => true | Error _ => false end).
    split.
    + intros v out. unfold obind at 1, quiet at 1, lift at 1. cbn [fst snd].
      unfold obind at 1, quiet at 1, set_X at 1. cbn [fst snd].
      unfold obind at 1.
      rewrite (for_each_out_loop v hs ps _ _ out []) by reflexivity.
      fold f. fold st. cbn [app ns_Y].
      unfold progress_upto. rewrite <- Hst.
      destruct (collect_rows f (seq 0 (length hs))) as [rows r].
      cbn [fst snd]. destruct r as [[]|e].
      * unfold obind at 1. rewrite after_loop_run. cbn [fst snd].
        unfold obind, quiet, get_X, set_X, np_array, lift, set_Y.
        cbn [fst snd ns_X ns_Y of_option].
        rewrite <- app_assoc.
        destruct (loadtxt fs sizes_file); reflexivity.
      * now rewrite app_nil_r.
    + intros hs' ps' Heq. inversion Heq; subst hs' ps'.
      destruct (collect_rows f (seq 0 (length hs))) as [rows r].
      cbn [fst snd] in *. exists rows.
      split; [destruct r as [[]|e]; [destruct (loadtxt fs sizes_file)|];
              reflexivity|].
      split; [destruct r; lia|]. split; [exact Hs|].
      split.
      * destruct r as [[]|e]; [|discriminate].
        intros _. rewrite Hall by reflexivity. apply length_seq.
      * destruct r as [[]|e]; [reflexivity | discriminate].
  - exists 0%nat, false. split.
    + intros v out. unfold obind, quiet, lift. cbn [fst snd].
      unfold progress_upto. cbn. now rewrite app_nil_r.
    + intros hs ps Heq. discriminate.
Qed.
End OutputFacts.

Lemma file_of_lines_app ls1 ls2 :
  file_of_lines (ls1 ++ ls2) = file_of_lines ls1 ++ file_of_lines ls2.
Proof. unfold file_of_lines. now rewrite map_app, concat_app. Qed.

Lemma progress_line_no_newline i : no_newline (progress_line i).
Proof.
  unfold progress_line, no_newline. rewrite !Forall_app. repeat split.
  - repeat constructor; discriminate.
  - eapply Forall_impl; [|apply int_digits_all_digits].
    apply is_digit_not_newline.
  - repeat constructor; discriminate.
Qed.

Lemma reports_written ks :
  concat (map (report StdoutWrite) ks) = file_of_lines (map progress_line ks).
Proof.
  unfold file_of_lines. rewrite map_map. reflexivity.
Qed.

Lemma reports_printed ks :
  concat (map (report PrintStatement) ks)
  = file_of_lines (flat_map (fun k => [progress_line k; []]) ks).
Proof.
  induction ks as [|k ks IH]; [reflexivity|].
  cbn [map concat flat_map]. rewrite IH.
  change ([progress_line k; []] ++ flat_map (fun k => [progress_line k; []]) ks)
    with ([progress_line k; []]
            ++ flat_map (fun k => [progress_line k; []]) ks).
  rewrite file_of_lines_app. unfold report, progress_text, file_of_lines at 2.
  cbn [map concat app]. now rewrite <- !app_assoc.
Qed.

Lemma nonblank_printed ks :
  filter nonblank (flat_map (fun k => [progress_line k; []]) ks)
  = map progress_line ks.
Proof.
  induction ks as [|k ks IH]; [reflexivity|].
  cbn [flat_map app map filter]. rewrite IH. reflexivity.
Qed.

Lemma printed_no_newline ks :
  Forall no_newline (flat_map (fun k => [progress_line k; []]) ks).
Proof.
  induction ks as [|k ks IH]; cbn [flat_map app]; [constructor|].
  constructor; [apply progress_line_no_newline|].
  constructor; [constructor | exact IH].
Qed.

Section ReportFacts.
Context `{MsTools} `{Allel}.

(** X6: when the cell runs to its end on [n] replicates, it has put on the
    standard output one report for each multiple of 1000 below [n], in
    increasing order: the reports for 0, 1000, ..., so [ceil(n/1000)] of
    them, and none for [n] itself.  The namespace is the one the cell
    leaves without its reports. *)
Theorem progress_reports_on_completion v totalPhysLen fs ns out hs ps :
  msOutToHaplotypeArrayIn fs msOut_file totalPhysLen = Ok (hs, ps) ->
  snd (assembler_cell_out v totalPhysLen fs (ns, out)) = Ok tt ->
  snd (fst (assembler_cell_out v totalPhysLen fs (ns, out)))
  = out ++ concat (map (fun q => report v (1000 * q))
                     (seq 0 ((length hs + 999) / 1000)))
        ++ after_loop_text v /\
  (forall q, (q < (length hs + 999) / 1000)%nat ->
     (1000 * q < length hs)%nat) /\
  fst (fst (assembler_cell_out v totalPhysLen fs (ns, out)))
  = fst (assembler_cell totalPhysLen fs ns).
Proof.
  intros Hparse Hok.
  destruct (cell_out_shape totalPhysLen fs ns) as (s & done & Hout & Hprop).
  destruct (Hprop hs ps Hparse) as (X & HX & Hs & Hle & Hdone & Hfin).
  rewrite Hout in *. cbn [fst snd] in *.
  rewrite (Hfin Hok) in *. rewrite (Hdone eq_refl).
  unfold progress_upto. rewrite filter_reports_seq, map_map.
  split; [reflexivity|]. split; [apply reported_below | reflexivity].
Qed.

(** X7: however the cell ends after the parser has returned, the reports
    on the standard output are those for 0, 1000, ..., [1000 * (c - 1)]
    for some [c], and the number of rows in [X] is at least the last
    reported count and at most 1000 more than it: a report never
    overstates the number of replicates that are done. *)
Theorem progress_never_overstates v totalPhysLen fs ns out hs ps :
  msOutToHaplotypeArrayIn fs msOut_file totalPhysLen = Ok (hs, ps) ->
  exists X c tail,
    ns_X (fst (fst (assembler_cell_out v totalPhysLen fs (ns, out))))
    = Some X /\
    snd (fst (assembler_cell_out v totalPhysLen fs (ns, out)))
    = out ++ concat (map (fun q => report v (1000 * q)) (seq 0 c)) ++ tail /\
    (tail = [] \/ tail = after_loop_text v) /\
    (1000 * (c - 1) <= length X <= 1000 * c)%nat.
Proof.
  intros Hparse.
  destruct (cell_out_shape totalPhysLen fs ns) as (s & done & Hout & Hprop).
  destruct (Hprop hs ps Hparse) as (X & HX & Hs & Hle & Hdone & Hfin).
  exists X, ((s + 999) / 1000)%nat,
    (if done then after_loop_text v else []).
  rewrite Hout. cbn [fst snd].
  split; [exact HX|].
  split; [unfold progress_upto; now rewrite filter_reports_seq, map_map|].
  split; [destruct done; auto|].
  pose proof (ceil_div_bounds s) as [Hlo Hhi]. lia.
Qed.

(** X8: the two copies of the notebook, one reporting with
    [sys.stdout.write] and one with [print], leave the same namespace and
    end in the same way, which is also what the cell does without its
    reports; and in an output area that starts empty they print the same
    non-empty lines. *)
Theorem both_notebooks_agree totalPhysLen fs ns :
  let w := assembler_cell_out StdoutWrite totalPhysLen fs (ns, []) in
  let p := assembler_cell_out PrintStatement totalPhysLen fs (ns, []) in
  fst (fst w) = fst (assembler_cell totalPhysLen fs ns) /\
  fst (fst p) = fst (assembler_cell totalPhysLen fs ns) /\
  snd w = snd (assembler_cell totalPhysLen fs ns) /\
  snd p = snd (assembler_cell totalPhysLen fs ns) /\
  filter nonblank (splitlines (snd (fst w)))
  = filter nonblank (splitlines (snd (fst p))).
Proof.
  intros w p. unfold w, p.
  destruct (cell_out_shape totalPhysLen fs ns) as (s & done & Hout & _).
  rewrite !Hout. cbn [fst snd app].
  repeat (split; [reflexivity|]).
  unfold progress_upto. set (ks := filter reports (seq 0 s)).
  rewrite reports_written, reports_printed.
  assert (Hnb : filter nonblank (map progress_line ks) = map progress_line ks).
  { apply forallb_filter_id, forallb_forall. intros l Hl.
    apply in_map_iff in Hl. destruct Hl as (k & <- & _). reflexivity. }
  assert (Hlines : Forall no_newline (map progress_line ks)).
  { apply Forall_map, Forall_forall. intros k _.
    apply progress_line_no_newline. }
  destruct done; cbn [after_loop_text]; rewrite !app_nil_r.
  - change [newline] with (file_of_lines [[]]).
    rewrite <- file_of_lines_app, !splitlines_terminated; trivial.
    + rewrite filter_app, nonblank_printed, Hnb. cbn [filter nonblank].
      now rewrite app_nil_r.
    + apply Forall_app. split; [apply printed_no_newline|].
      repeat constructor.
  - rewrite !splitlines_terminated; trivial.
    + now rewrite nonblank_printed, Hnb.
    + apply printed_no_newline.
Qed.
End ReportFacts.

(** ** Instances of the properties with hypotheses *)

Lemma first_failing_replicate_ends_the_cell_witness :
  exists X,
    @assembler_cell (Standin.returning (Ok Examples.short_positions))
      Standin.counting 10000 Standin.two_labels Standin.stale
    = (@Build_namespace Standin.counting (Some X) (ns_Y Standin.stale),
       Error IndexError) /\
    length X = 2%nat /\
    forall i, (i < 2)%nat ->
      exists row,
        nth_error X i = Some row /\
        @feature_vector Standin.counting (fst Examples.short_positions)
          (snd Examples.short_positions) i = Ok row.
Proof.
  apply (@first_failing_replicate_ends_the_cell
           (Standin.returning (Ok Examples.short_positions)) Standin.counting
           10000 Standin.two_labels Standin.stale
           (fst Examples.short_positions) (snd Examples.short_positions)
           2 IndexError).
  - reflexivity.
  - simpl. lia.
  - intros i Hi. destruct i as [|[|i]];
      [eexists; reflexivity | eexists; reflexivity | lia].
  - reflexivity.
Defined.

Lemma failed_label_load_leaves_old_labels_witness :
  exists X,
    @assembler_cell (Standin.returning (Ok Standin.two_replicates))
      Standin.counting 10000 Standin.no_files Standin.stale
    = (@Build_namespace Standin.counting (Some X) (ns_Y Standin.stale),
       Error IOError) /\
    length X = 2%nat /\
    forall i, (i < 2)%nat ->
      exists row,
        nth_error X i = Some row /\
        @feature_vector Standin.counting (fst Standin.two_replicates)
          (snd Standin.two_replicates) i = Ok row.
Proof.
  apply (@failed_label_load_leaves_old_labels
           (Standin.returning (Ok Standin.two_replicates)) Standin.counting
           10000 Standin.no_files Standin.stale
           (fst Standin.two_replicates) (snd Standin.two_replicates) IOError).
  - reflexivity.
  - intros i Hi. destruct i as [|[|i]];
      [eexists; reflexivity | eexists; reflexivity | simpl in Hi; lia].
  - reflexivity.
Defined.

Lemma missing_positions_raise_IndexError_witness :
  exists X,
    @assembler_cell (Standin.returning (Ok Examples.short_positions))
      Standin.counting 10000 Standin.two_labels Standin.unbound
    = (@Build_namespace Standin.counting (Some X) (ns_Y Standin.unbound),
       Error IndexError) /\
    length X = 2%nat.
Proof.
  apply (@missing_positions_raise_IndexError
           (Standin.returning (Ok Examples.short_positions)) Standin.counting
           10000 Standin.two_labels Standin.unbound
           (fst Examples.short_positions) (snd Examples.short_positions)
           Standin.rep_a Standin.rep_a Standin.rep_a
           (Standin.column_sums Standin.rep_a)).
  - reflexivity.
  - simpl. lia.
  - intros i Hi. destruct i as [|[|i]];
      [eexists; reflexivity | eexists; reflexivity | simpl in Hi; lia].
  - reflexivity.
  - reflexivity.
  - reflexivity.
  - reflexivity.
Defined.

Lemma progress_reports_on_completion_witness :
  snd (fst (@assembler_cell_out
              (Standin.returning (Ok Standin.two_replicates)) Standin.counting
              StdoutWrite 10000 Standin.two_labels (Standin.unbound, [])))
  = [] ++ concat (map (fun q => report StdoutWrite (1000 * q)) (seq 0 1))
       ++ after_loop_text StdoutWrite /\
  (forall q, (q < 1)%nat -> (1000 * q < 2)%nat) /\
  fst (fst (@assembler_cell_out
              (Standin.returning (Ok Standin.two_replicates)) Standin.counting
              StdoutWrite 10000 Standin.two_labels (Standin.unbound, [])))
  = fst (@assembler_cell (Standin.returning (Ok Standin.two_replicates))
           Standin.counting 10000 Standin.two_labels Standin.unbound).
Proof.
  apply (@progress_reports_on_completion
           (Standin.returning (Ok Standin.two_replicates)) Standin.counting
           StdoutWrite 10000 Standin.two_labels Standin.unbound []
           (fst Standin.two_replicates) (snd Standin.two_replicates)).
  - reflexivity.
  - vm_compute. reflexivity.
Defined.

Lemma progress_never_overstates_witness :
  exists X c tail,
    ns_X (fst (fst (@assembler_cell_out
                      (Standin.returning (Ok Examples.short_positions))
                      Standin.counting PrintStatement 10000
                      Standin.two_labels (Standin.unbound, []))))
    = Some X /\
    snd (fst (@assembler_cell_out
                (Standin.returning (Ok Examples.short_positions))
                Standin.counting PrintStatement 10000
                Standin.two_labels (Standin.unbound, [])))
    = [] ++ concat (map (fun q => report PrintStatement (1000 * q)) (seq 0 c))
         ++ tail /\
    (tail = [] \/ tail = after_loop_text PrintStatement) /\
    (1000 * (c - 1) <= length X <= 1000 * c)%nat.
Proof.
  apply (@progress_never_overstates
           (Standin.returning (Ok Examples.short_positions)) Standin.counting
           PrintStatement 10000 Standin.two_labels Standin.unbound []
           (fst Examples.short_positions) (snd Examples.short_positions)).
  reflexivity.
Defined.

(** ** The whole cell *)

Section WholeCellFacts.
Context `{PyFloat} `{MsTools} `{A : Allel} `{@Sklearn A}.

Lemma third_cell_run totalPhysLen fs ns :
  third_cell totalPhysLen fs ns
  = match assembler_cell totalPhysLen fs ns with
    | (ns', Ok _) =>
        match ns_X ns', ns_Y ns' with
        | Some X, Some Y => (ns', train_test_split X Y (1 # 10))
        | _, _ => (ns', Error NameError)
        end
    | (ns', Error e) => (ns', Error e)
    end.
Proof.
  unfold third_cell. unfold mbind at 1.
  destruct (assembler_cell totalPhysLen fs ns) as [ns' [[]|e]]; [|reflexivity].
  unfold mbind, get_X, get_Y, lift.
  destruct (ns_X ns') as [X|]; [|reflexivity].
  destruct (ns_Y ns') as [Y|]; reflexivity.
Qed.

Lemma third_cell_namespace totalPhysLen fs ns :
  fst (third_cell totalPhysLen fs ns) = fst (assembler_cell totalPhysLen fs ns).
Proof.
  rewrite third_cell_run.
  destruct (assembler_cell totalPhysLen fs ns) as [ns' [[]|e]]; [|reflexivity].
  destruct (ns_X ns'); [destruct (ns_Y ns')|]; reflexivity.
Qed.

(** When the statements before the call have run, the cell ends as
    [train_test_split] does on the [X] and [Y] they have bound. *)
Lemma third_cell_split totalPhysLen fs ns hs ps :
  msOutToHaplotypeArrayIn fs msOut_file totalPhysLen = Ok (hs, ps) ->
  snd (assembler_cell totalPhysLen fs ns) = Ok tt ->
  exists X Y,
    ns_X (fst (assembler_cell totalPhysLen fs ns)) = Some X /\
    ns_Y (fst (assembler_cell totalPhysLen fs ns)) = Some Y /\
    length X = length hs /\
    loadtxt fs sizes_file = Ok Y /\
    snd (third_cell totalPhysLen fs ns) = train_test_split X Y (1 # 10).
Proof.
  intros Hparse Hok.
  destruct (cell_X_row_count totalPhysLen fs ns hs ps Hparse)
    as (X & HX & HlenX).
  destruct (cell_ok_parts _ _ _ Hok) as (hs' & ps' & Y & _ & Hload & HY).
  exists X, Y. repeat (split; [solve [auto]|]).
  rewrite third_cell_run.
  destruct (assembler_cell totalPhysLen fs ns) as [ns' [[]|e]];
    [|discriminate].
  cbn [fst snd] in *. now rewrite HX, HY.
Qed.

Lemma third_cell_ok_before totalPhysLen fs ns part :
  snd (third_cell totalPhysLen fs ns) = Ok part ->
  snd (assembler_cell totalPhysLen fs ns) = Ok tt.
Proof.
  rewrite third_cell_run.
  destruct (assembler_cell totalPhysLen fs ns) as [ns' [[]|e]];
    [reflexivity | discriminate].
Qed.

(** [train_test_split] checks that its arrays have the same number of
    entries and raises [ValueError] otherwise. *)
Hypothesis split_checks_lengths :
  forall X Y test_size,
    length X <> length Y -> is_error (train_test_split X Y test_size).

Lemma third_cell_ok_counts totalPhysLen fs ns hs ps part :
  msOutToHaplotypeArrayIn fs msOut_file totalPhysLen = Ok (hs, ps) ->
  snd (third_cell totalPhysLen fs ns) = Ok part ->
  exists X Y,
    ns_X (fst (third_cell totalPhysLen fs ns)) = Some X /\
    ns_Y (fst (third_cell totalPhysLen fs ns)) = Some Y /\
    length X = length hs /\ length Y = length hs /\
    loadtxt fs sizes_file = Ok Y.
Proof.
  intros Hparse Hpart.
  pose proof (third_cell_ok_before _ _ _ _ Hpart) as Hok.
  destruct (third_cell_split _ _ _ _ _ Hparse Hok)
    as (X & Y & HX & HY & Hlen & Hload & Hsplit).
  exists X, Y. rewrite third_cell_namespace.
  repeat (split; [assumption|]). split; [|assumption].
  destruct (Nat.eq_dec (length X) (length Y)) as [E|E]; [congruence|].
  pose proof (split_checks_lengths X Y (1 # 10) E) as He.
  rewrite <- Hsplit, Hpart in He. contradiction.
Qed.

(** C1: when the cell ends without raising, the feature matrix has as many
    rows as replicates were parsed and the label vector has as many
    entries: the three counts are equal.  A label vector of another length
    than the number of replicates is not accepted: the cell raises (at the
    latest in [train_test_split], which refuses arrays of different
    lengths).  On a parameter file written by the sampler with count [n],
    a cell that ends without raising has parsed [n] replicates. *)
Theorem counts_agree_or_the_cell_raises totalPhysLen fs ns hs ps :
  msOutToHaplotypeArrayIn fs msOut_file totalPhysLen = Ok (hs, ps) ->
  (forall part,
     snd (third_cell totalPhysLen fs ns) = Ok part ->
     exists X Y,
       ns_X (fst (third_cell totalPhysLen fs ns)) = Some X /\
       ns_Y (fst (third_cell totalPhysLen fs ns)) = Some Y /\
       length X = length hs /\ length Y = length hs) /\
  (forall Y,
     loadtxt fs sizes_file = Ok Y -> length Y <> length hs ->
     is_error (snd (third_cell totalPhysLen fs ns))) /\
  (forall n fs0 g part,
     fs sizes_file = fst (param_sampler n fs0 g) sizes_file ->
     snd (third_cell totalPhysLen fs ns) = Ok part ->
     length hs = n).
Proof.
  intros Hparse. split; [|split].
  - intros part Hpart.
    destruct (third_cell_ok_counts _ _ _ _ _ _ Hparse Hpart)
      as (X & Y & HX & HY & HlX & HlY & _).
    now exists X, Y.
  - intros Y Hload Hneq.
    destruct (snd (third_cell totalPhysLen fs ns)) as [part|e] eqn:E;
      [|exact I].
    destruct (third_cell_ok_counts _ _ _ _ _ _ Hparse E)
      as (X & Y' & _ & _ & _ & HlY & Hload').
    assert (Y' = Y) by congruence. subst Y'. contradiction.
  - intros n fs0 g part Hfs Hpart.
    destruct (third_cell_ok_counts _ _ _ _ _ _ Hparse Hpart)
      as (X & Y & _ & _ & _ & HlY & Hload).
    rewrite (loadtxt_sampled n fs0 g fs Hfs) in Hload. inversion Hload; subst Y.
    now rewrite length_map, popSizes_length in HlY.
Qed.

Hypothesis parser_reads_its_file :
  forall fs1 fs2 name totalPhysLen,
    fs1 name = fs2 name ->
    msOutToHaplotypeArrayIn fs1 name totalPhysLen
    = msOutToHaplotypeArrayIn fs2 name totalPhysLen.

(** X9: the cell takes the features from the simulator output and the
    labels from the parameter file as it is when the cell runs.  When the
    sampler is run again, for [m] values, after a simulation on which the
    cell ends without raising, the cell builds the same [X] and reads the
    [m] values of the second run into [Y], line by line, and ends as
    [train_test_split] does on this [X] and this [Y]: it raises when [m]
    is not the number of replicates, and with equal counts nothing in the
    cell tells that the labels are not those the replicates were simulated
    with. *)
Theorem labels_come_from_the_current_file
    n m fs g g2 stdout totalPhysLen ns ns2 part :
  let simulated := ms_cell stdout (fst (param_sampler n fs g)) in
  let resampled := fst (param_sampler m simulated g2) in
  snd (third_cell totalPhysLen simulated ns) = Ok part ->
  exists X Y ls,
    ns_X (fst (third_cell totalPhysLen simulated ns)) = Some X /\
    length X = n /\
    ns_X (fst (third_cell totalPhysLen resampled ns2)) = Some X /\
    ns_Y (fst (third_cell totalPhysLen resampled ns2)) = Some Y /\
    length Y = m /\
    resampled sizes_file = Some (file_of_lines ls) /\
    ls = map format_f (popSizes m g2) /\
    (forall i line, nth_error ls i = Some line ->
       exists v, parse_float line = Some v /\ nth_error Y i = Some v) /\
    snd (third_cell totalPhysLen resampled ns2)
    = train_test_split X Y (1 # 10) /\
    (m <> n -> is_error (snd (third_cell totalPhysLen resampled ns2))).
Proof.
  intros simulated resampled Hpart.
  pose proof (third_cell_ok_before _ _ _ _ Hpart) as Hok.
  destruct (cell_ok_parts _ _ _ Hok) as (hs & ps & Y0 & Hparse & _ & _).
  destruct (third_cell_ok_counts _ _ _ _ _ _ Hparse Hpart)
    as (X & Y0' & HX & _ & HlX & HlY0 & Hload0).
  assert (Hold : loadtxt simulated sizes_file = Ok (map round6 (popSizes n g))).
  { apply (loadtxt_sampled n fs g). apply ms_cell_keeps_sizes. }
  assert (Hn : length hs = n).
  { rewrite Hold in Hload0. inversion Hload0; subst Y0'.
    now rewrite length_map, popSizes_length in HlY0. }
  assert (Hsame : msOutToHaplotypeArrayIn resampled msOut_file totalPhysLen
                  = Ok (hs, ps)).
  { rewrite <- Hparse. apply parser_reads_its_file. unfold resampled.
    now rewrite param_sampler_other. }
  assert (Hnew : loadtxt resampled sizes_file
                 = Ok (map round6 (popSizes m g2))).
  { apply (loadtxt_sampled m simulated g2). reflexivity. }
  assert (Hrun : snd (assembler_cell totalPhysLen resampled ns2) = Ok tt /\
                 ns_X (fst (assembler_cell totalPhysLen resampled ns2))
                 = ns_X (fst (assembler_cell totalPhysLen simulated ns))).
  { revert Hok. rewrite !assembler_cell_outcome. unfold cell_outcome.
    rewrite Hsame, Hparse, Hold, Hnew.
    destruct (collect_rows (feature_vector hs ps) (seq 0 (length hs)))
      as [rows [[]|e]]; [|discriminate].
    intros _. split; reflexivity. }
  destruct Hrun as [Hok2 HX2].
  rewrite third_cell_namespace in HX. rewrite HX in HX2.
  assert (Hfile : resampled sizes_file
                  = Some (file_of_lines (map format_f (popSizes m g2)))).
  { apply param_sampler_file. }
  assert (Hnb : Forall (fun l => nonblank l = true)
                  (splitlines (file_of_lines (map format_f (popSizes m g2))))).
  { rewrite sampler_lines. apply Forall_map, Forall_forall.
    intros x _. apply format_f_nonblank. }
  destruct (labels_follow_lines _ _ _ _ Hfile Hnb Hok2)
    as (Y & HY & HlY & Hnth).
  rewrite sampler_lines in HlY, Hnth.
  rewrite length_map, popSizes_length in HlY.
  destruct (third_cell_split _ _ _ _ _ Hsame Hok2)
    as (X' & Y' & HX' & HY' & _ & _ & Hsplit).
  assert (X' = X) by congruence. assert (Y' = Y) by congruence. subst X' Y'.
  exists X, Y, (map format_f (popSizes m g2)).
  rewrite !third_cell_namespace.
  split; [exact HX|]. split; [congruence|]. split; [exact HX2|].
  split; [exact HY|]. split; [exact HlY|]. split; [exact Hfile|].
  split; [reflexivity|]. split; [exact Hnth|]. split; [exact Hsplit|].
  intros Hm. rewrite Hsplit. apply split_checks_lengths. congruence.
Qed.
End WholeCellFacts.


(** The stand-in for [train_test_split] refuses arrays of different
    lengths. *)
Lemma last_out_checks_lengths (X : list (list Z)) (Y : list Q) test_size :
  length X <> length Y ->
  is_error (@train_test_split Standin.counting Examples.last_out
              X Y test_size).
Proof.
  intros Hneq. cbn. unfold Examples.last_out_split.
  destruct (Nat.eqb (length X) (length Y)) eqn:E; [|exact I].
  apply Nat.eqb_eq in E. contradiction.
Qed.

Lemma counts_agree_or_the_cell_raises_witness :
  (exists X Y,
     ns_X (fst (@third_cell (Standin.returning (Ok Standin.two_replicates))
                  Standin.counting Examples.last_out
                  reference_totalPhysLen Standin.two_labels Standin.unbound))
     = Some X /\
     ns_Y (fst (@third_cell (Standin.returning (Ok Standin.two_replicates))
                  Standin.counting Examples.last_out
                  reference_totalPhysLen Standin.two_labels Standin.unbound))
     = Some Y /\
     length X = 2%nat /\ length Y = 2%nat) /\
  is_error (snd (@third_cell (Standin.returning (Ok Standin.three_replicates))
                   Standin.counting Examples.last_out
                   reference_totalPhysLen Standin.two_labels Standin.unbound)).
Proof.
  split.
  - eapply (proj1 (@counts_agree_or_the_cell_raises Standin.lcg
             (Standin.returning (Ok Standin.two_replicates)) Standin.counting
             Examples.last_out last_out_checks_lengths
             reference_totalPhysLen Standin.two_labels Standin.unbound
             (fst Standin.two_replicates) (snd Standin.two_replicates)
             eq_refl)).
    reflexivity.
  - eapply (proj1 (proj2 (@counts_agree_or_the_cell_raises Standin.lcg
             (Standin.returning (Ok Standin.three_replicates)) Standin.counting
             Examples.last_out last_out_checks_lengths
             reference_totalPhysLen Standin.two_labels Standin.unbound
             (fst Standin.three_replicates) (snd Standin.three_replicates)
             eq_refl))).
    + reflexivity.
    + cbn. discriminate.
Defined.

Lemma labels_come_from_the_current_file_witness :
  let simulated :=
    Standin.simulated (fst (@param_sampler Standin.lcg 2 Standin.no_files 1%N)) in
  let resampled := fst (@param_sampler Standin.lcg 2 simulated 7%N) in
  exists X Y ls,
    ns_X (fst (@third_cell spec_msTools Standin.counting Examples.last_out
                 10000 simulated Standin.unbound)) = Some X /\
    length X = 2%nat /\
    ns_X (fst (@third_cell spec_msTools Standin.counting Examples.last_out
                 10000 resampled Standin.stale)) = Some X /\
    ns_Y (fst (@third_cell spec_msTools Standin.counting Examples.last_out
                 10000 resampled Standin.stale)) = Some Y /\
    length Y = 2%nat /\
    resampled sizes_file = Some (file_of_lines ls) /\
    ls = map format_f (@popSizes Standin.lcg 2 7%N) /\
    (forall i line, nth_error ls i = Some line ->
       exists v, parse_float line = Some v /\ nth_error Y i = Some v) /\
    snd (@third_cell spec_msTools Standin.counting Examples.last_out
           10000 resampled Standin.stale)
    = Examples.last_out_split X Y (1 # 10) /\
    (2%nat <> 2%nat ->
     is_error (snd (@third_cell spec_msTools Standin.counting
                      Examples.last_out 10000 resampled Standin.stale))).
Proof.
  eapply (@labels_come_from_the_current_file Standin.lcg spec_msTools
            Standin.counting Examples.last_out last_out_checks_lengths
            spec_parser_reads_its_file
            2 2 Standin.no_files 1%N 7%N
            (file_of_lines Standin.stream_lines) 10000
            Standin.unbound Standin.stale).
  vm_compute. reflexivity.
Defined.
